(** * Source.cpp: GPU grayscale conversion, kernel and host driver

    A shallow embedding of [src/Source.cpp]:
    - the OpenCL C kernel [convertToGrayscale] held in [customKernel], with its
      32-bit [int] arithmetic, its [uchar4] loads and stores on device memory
      and its execution over a two-dimensional range of work-items;
    - the host program [main], as a state-and-early-return monad over a world
      made of the standard streams, the file system, the OpenCL handles and the
      device memory, driven by an environment that fixes what the image codec
      and the OpenCL driver answer.

    What the embedding leaves out: the bytes of a JPEG file (a file stands
    for the image the codec decodes from it), C++ exceptions, and hosts whose
    [size_t] is not 64 bits wide. The device runs the work-items of a range
    one after the other, in an order the environment chooses. *)

From Stdlib Require Import ZArith Lia.
From Stdlib Require Init.Byte Strings.Byte.
From stdpp Require Import base numbers option list list_numbers gmap strings.

Local Open Scope Z_scope.

(** ** Machine integers *)

Abbreviation uchar := Init.Byte.byte.

(** Integer promotion of an 8-bit unsigned channel. *)
Definition uchar_to_int (b : uchar) : Z := Z.of_N (Strings.Byte.to_N b).

(** Conversion of an [int] to [uchar]: reduction modulo 2^8. *)
Definition int_to_uchar (v : Z) : uchar :=
  default Byte.x00 (Strings.Byte.of_N (Z.to_N (v mod 256))).

(** A mathematical integer brought back into the 32-bit two's complement
    range of [int]. *)
Definition wrap_int (v : Z) : Z := (v + 2 ^ 31) mod 2 ^ 32 - 2 ^ 31.

Definition int_add (a b : Z) : Z := wrap_int (a + b).
Definition int_mul (a b : Z) : Z := wrap_int (a * b).
(** [/] on [int] truncates toward zero. *)
Definition int_div (a b : Z) : Z := wrap_int (a ÷ b).

(** ** Device memory and [uchar4] accesses *)

Module uchar4.
Record t := mk { x : uchar; y : uchar; z : uchar; w : uchar }.
End uchar4.

(** A [cl_mem] handle; [NULL] is never the handle of a buffer. *)
Abbreviation cl_mem := nat (only parsing).
Definition NULL : cl_mem := 0%nat.

(** Global memory of the device: the bytes of every live buffer. *)
Abbreviation device_mem := (gmap nat (list uchar)) (only parsing).

(** [p[index]] for [p : __global uchar4*]: the four bytes at byte offset
    [4 * index], component [x] at the lowest address. An access that is not
    inside the buffer has no defined result. *)
Definition load_uchar4 (buf : list uchar) (index : Z) : option uchar4.t :=
  if decide (index < 0) then None else
  let o := Z.to_nat (4 * index) in
  b0 ← buf !! o;
  b1 ← buf !! (o + 1)%nat;
  b2 ← buf !! (o + 2)%nat;
  b3 ← buf !! (o + 3)%nat;
  Some (uchar4.mk b0 b1 b2 b3).

Definition store_uchar4 (buf : list uchar) (index : Z) (v : uchar4.t)
  : option (list uchar) :=
  if decide (index < 0) then None else
  let o := Z.to_nat (4 * index) in
  if decide (o + 4 ≤ length buf)%nat then
    Some (<[(o + 3)%nat := uchar4.w v]>
          (<[(o + 2)%nat := uchar4.z v]>
           (<[(o + 1)%nat := uchar4.y v]>
            (<[o := uchar4.x v]> buf))))
  else None.

(** ** The kernel *)

(** [uchar grayscale = (px.x + px.y + px.z) / 3;] the channels are promoted
    to [int], added and divided as [int]s, and the quotient is converted back
    to [uchar]. *)
Definition grayscale (px : uchar4.t) : uchar :=
  int_to_uchar
    (int_div
       (int_add (int_add (uchar_to_int (uchar4.x px)) (uchar_to_int (uchar4.y px)))
                (uchar_to_int (uchar4.z px)))
       3).

(** [int x = get_global_id(0); int y = get_global_id(1);
    int index = y * imgWidth + x;] the global ids are converted to [int] and
    the product and the sum are [int]s, written out in two's complement. *)
Definition pixel_index (imgWidth : Z) (gid : Z * Z) : Z :=
  let x := wrap_int gid.1 in
  let y := wrap_int gid.2 in
  int_add (int_mul y imgWidth) x.

(** One work-item of [convertToGrayscale], run on the device memory [m];
    [gid] is [(get_global_id(0), get_global_id(1))]. [None] when the work-item
    accesses memory outside of a buffer, for which OpenCL C defines no
    behaviour. *)
Definition convertToGrayscale (inputImage outputImage : cl_mem)
    (imgWidth imgHeight : Z) (gid : Z * Z) (m : device_mem)
  : option device_mem :=
  (* int x = get_global_id(0); int y = get_global_id(1);
     int index = y * imgWidth + x; *)
  let index := pixel_index imgWidth gid in
  (* uchar4 px = inputImage[index]; *)
  inbuf ← m !! inputImage;
  px ← load_uchar4 inbuf index;
  (* uchar grayscale = (px.x + px.y + px.z) / 3; *)
  let g := grayscale px in
  (* outputImage[index] = (uchar4)(grayscale, grayscale, grayscale, px.w); *)
  outbuf ← m !! outputImage;
  outbuf' ← store_uchar4 outbuf index (uchar4.mk g g g (uchar4.w px));
  Some (<[outputImage := outbuf']> m).

(** ** Execution over an N-D range *)

(** The work-items of a 2-D range of global size [(W, H)], row by row. *)
Definition grid (W H : Z) : list (Z * Z) :=
  y ← seqZ 0 H; x ← seqZ 0 W; [(x, y)].

(** The device runs the work-items in an order of its own choosing: a
    schedule is any arrangement of the range. *)
Definition is_schedule (W H : Z) (sched : list (Z * Z)) : Prop :=
  sched ≡ₚ grid W H.

(** Work-items run one after the other in the order of the schedule. *)
Fixpoint run_items (k : Z * Z → device_mem → option device_mem)
    (sched : list (Z * Z)) (m : device_mem) : option device_mem :=
  match sched with
  | [] => Some m
  | gid :: rest => m' ← k gid m; run_items k rest m'
  end.

(** The dispatch of [main]: [convertToGrayscale] with arguments
    [(inputImage, outputImage, W, H)] over the range [(W, H)]. *)
Definition dispatch (inputImage outputImage : cl_mem) (W H : Z)
    (sched : list (Z * Z)) (m : device_mem) : option device_mem :=
  run_items (convertToGrayscale inputImage outputImage W H) sched m.

(** The transform on buffers: input bytes [inp] in buffer 1, an output
    buffer 2 whose initial contents [junk] are whatever the allocation left
    there, the kernel dispatched over [(W, H)], and the output buffer read
    back. *)
Definition transform (W H : Z) (sched : list (Z * Z)) (inp junk : list uchar)
  : option (list uchar) :=
  m ← dispatch 1%nat 2%nat W H sched (<[2%nat := junk]> (<[1%nat := inp]> ∅));
  m !! 2%nat.

Definition bytes (l : list Z) : list uchar := int_to_uchar <$> l.

(** The pixel the kernel stores for the input pixel [px]:
    [(uchar4)(grayscale, grayscale, grayscale, px.w)]. *)
Definition gray_pixel (px : uchar4.t) : uchar4.t :=
  uchar4.mk (grayscale px) (grayscale px) (grayscale px) (uchar4.w px).

(** * The host program *)

(** ** Images and the codec *)

(** A [cv::Mat] of 8-bit channels: [rows], [cols], the number of channels and
    the pixel bytes, row by row without padding. *)
Record Mat := mkMat {
  rows : Z;
  cols : Z;
  channels : Z;
  data : list uchar
}.

(** The [Mat] that [cv::imread] returns when it cannot read its file. *)
Definition no_Mat : Mat := mkMat 0 0 0 [].

(** [Mat::empty()]: no data, or no element. *)
Definition Mat_empty (m : Mat) : bool :=
  bool_decide (data m = [] ∨ rows m * cols m = 0).

(** [cv::COLOR_BGR2RGBA] on the bytes: the channels of every pixel are
    reordered and an opaque alpha of 255 is added. *)
Fixpoint BGR2RGBA (d : list uchar) : list uchar :=
  match d with
  | b :: g :: r :: rest => r :: g :: b :: Byte.xff :: BGR2RGBA rest
  | _ => []
  end.

(** [cv::COLOR_RGBA2BGR] on the bytes: the channels of every pixel are
    reordered and alpha is dropped. *)
Fixpoint RGBA2BGR (d : list uchar) : list uchar :=
  match d with
  | r :: g :: b :: _ :: rest => b :: g :: r :: RGBA2BGR rest
  | _ => []
  end.

(** The two conversions [main] asks [cv::cvtColor] for. *)
Inductive ColorConversionCode := COLOR_BGR2RGBA | COLOR_RGBA2BGR.

(** [cv::cvtColor(src, dst, code)]: [dst] has the size of [src]. *)
Definition cvtColor (src : Mat) (code : ColorConversionCode) : Mat :=
  match code with
  | COLOR_BGR2RGBA => mkMat (rows src) (cols src) 4 (BGR2RGBA (data src))
  | COLOR_RGBA2BGR => mkMat (rows src) (cols src) 3 (RGBA2BGR (data src))
  end.

(** ** The world [main] runs in *)

(** Where a standard stream sends what is written to it. *)
Inductive streambuf := to_stdout | to_stderr | to_devnull.

(** The standard streams: the buffer [std::cout] and [std::cerr] each write
    to, the lines that reached the process's standard output and standard
    error, and the lines that went to [/dev/null]. *)
Record streams := mkStreams {
  cout_rdbuf : streambuf;
  cerr_rdbuf : streambuf;
  stdout_lines : list string;
  stderr_lines : list string;
  devnull_lines : list string
}.

(** The OpenCL objects [main] creates. *)
Inductive resource :=
  Context | CommandQueue | Program | Kernel | InputBuffer | OutputBuffer.

#[global] Instance resource_eq_dec : EqDecision resource.
Proof. solve_decision. Defined.

(** The world: the streams, the image files by path (a file stands for the
    image the codec reads from it), the OpenCL objects in the order they were
    acquired and the ones released in the order they were released, and the
    memory of the device. *)
Record world := mkWorld {
  io : streams;
  files : gmap string Mat;
  acquisitions : list resource;
  releases : list resource;
  device : gmap nat (list uchar)
}.

(** What the OpenCL driver and the codec answer during one run: the status
    of every call, whether [cv::imwrite] manages to write, the order in which
    the device runs the work-items of a range, the bytes a fresh output buffer
    and a fresh host image happen to hold, and the device memory left behind
    by a kernel whose accesses left the buffers. *)
Record environment := mkEnvironment {
  st_clGetPlatformIDs : Z;
  st_clGetDeviceIDs : Z;
  st_clCreateContext : Z;
  st_clCreateCommandQueueWithProperties : Z;
  st_clCreateProgramWithSource : Z;
  st_clBuildProgram : Z;
  st_clCreateKernel : Z;
  st_clCreateBuffer_input : Z;
  st_clCreateBuffer_output : Z;
  st_clSetKernelArg : nat → Z;
  st_clEnqueueNDRangeKernel : Z;
  st_clEnqueueReadBuffer : Z;
  imwrite_ok : bool;
  schedule : list (Z * Z) → list (Z * Z);
  device_junk : list uchar;
  host_junk : list uchar;
  faulted_device : gmap nat (list uchar)
}.

Definition CL_SUCCESS : Z := 0.

(** [size_t] arithmetic of a 64-bit host. *)
Definition size_t (v : Z) : Z := v mod 2 ^ 64.
Definition size_t_mul (a b : Z) : Z := size_t (a * b).

(** ** Programs: state and early return *)

(** A statement either falls through with a value or leaves [main] through
    [return code]. *)
Inductive outcome (A : Type) :=
  | Next (a : A)
  | Return (code : Z).
Arguments Next {A} a.
Arguments Return {A} code.

Definition prog (A : Type) : Type := world → outcome A * world.

#[global] Instance prog_ret : MRet prog := λ A a w, (Next a, w).

#[global] Instance prog_bind : MBind prog := λ A B f p w,
  match p w with
  | (Next a, w') => f a w'
  | (Return code, w') => (Return code, w')
  end.

Definition return_ {A : Type} (code : Z) : prog A := λ w, (Return code, w).

(** [if (c) { body }] where [body] ends in a [return]. *)
Definition when (c : bool) (body : prog unit) : prog unit :=
  if c then body else mret ().

Definition modify (f : world → world) : prog unit := λ w, (Next (), f w).

Definition set_io (f : streams → streams) (w : world) : world :=
  mkWorld (f (io w)) (files w) (acquisitions w) (releases w) (device w).

Definition set_files (f : gmap string Mat → gmap string Mat) (w : world) : world :=
  mkWorld (io w) (f (files w)) (acquisitions w) (releases w) (device w).

Definition set_device (f : gmap nat (list uchar) → gmap nat (list uchar))
    (w : world) : world :=
  mkWorld (io w) (files w) (acquisitions w) (releases w) (f (device w)).

Definition acquire (r : resource) (w : world) : world :=
  mkWorld (io w) (files w) (acquisitions w ++ [r]) (releases w) (device w).

Definition release (r : resource) (w : world) : world :=
  mkWorld (io w) (files w) (acquisitions w) (releases w ++ [r]) (device w).

(** ** Streams *)

Definition write_line (b : streambuf) (line : string) (s : streams) : streams :=
  match b with
  | to_stdout =>
      mkStreams (cout_rdbuf s) (cerr_rdbuf s) (stdout_lines s ++ [line])
                (stderr_lines s) (devnull_lines s)
  | to_stderr =>
      mkStreams (cout_rdbuf s) (cerr_rdbuf s) (stdout_lines s)
                (stderr_lines s ++ [line]) (devnull_lines s)
  | to_devnull =>
      mkStreams (cout_rdbuf s) (cerr_rdbuf s) (stdout_lines s)
                (stderr_lines s) (devnull_lines s ++ [line])
  end.

(** [std::cout << line << std::endl;] *)
Definition cout_endl (line : string) : prog unit :=
  modify (set_io (λ s, write_line (cout_rdbuf s) line s)).

(** [std::cerr << line << std::endl;] *)
Definition cerr_endl (line : string) : prog unit :=
  modify (set_io (λ s, write_line (cerr_rdbuf s) line s)).

(** [std::cout.rdbuf()] and [std::cout.rdbuf(b)], and the same for
    [std::cerr]. *)
Definition cout_get_rdbuf : prog streambuf := λ w, (Next (cout_rdbuf (io w)), w).
Definition cerr_get_rdbuf : prog streambuf := λ w, (Next (cerr_rdbuf (io w)), w).

Definition cout_set_rdbuf (b : streambuf) : prog unit :=
  modify (set_io (λ s,
    mkStreams b (cerr_rdbuf s) (stdout_lines s) (stderr_lines s) (devnull_lines s))).

Definition cerr_set_rdbuf (b : streambuf) : prog unit :=
  modify (set_io (λ s,
    mkStreams (cout_rdbuf s) b (stdout_lines s) (stderr_lines s) (devnull_lines s))).

(** ** The codec *)

(** [cv::imread(path, cv::IMREAD_COLOR)]: the image of the file, an empty
    [Mat] when there is no such file. *)
Definition imread (path : string) : prog Mat :=
  λ w, (Next (default no_Mat (files w !! path)), w).

(** [cv::imwrite(path, img)]; its result is not looked at. *)
Definition imwrite (e : environment) (path : string) (img : Mat) : prog unit :=
  modify (set_files (λ fs, if imwrite_ok e then <[path := img]> fs else fs)).

(** ** The OpenCL calls *)

(** A call that only reports a status. *)
Definition cl_status (status : Z) : prog Z := mret status.

(** A call that creates the object [r]: on success the object is acquired,
    otherwise nothing is and the handle is null. *)
Definition cl_create (status : Z) (r : resource) : prog Z :=
  λ w, if bool_decide (status ≠ CL_SUCCESS)
       then (Next status, w)
       else (Next status, acquire r w).

Definition clGetPlatformIDs (e : environment) : prog Z :=
  cl_status (st_clGetPlatformIDs e).

Definition clGetDeviceIDs (e : environment) : prog Z :=
  cl_status (st_clGetDeviceIDs e).

Definition clCreateContext (e : environment) : prog Z :=
  cl_create (st_clCreateContext e) Context.

Definition clCreateCommandQueueWithProperties (e : environment) : prog Z :=
  cl_create (st_clCreateCommandQueueWithProperties e) CommandQueue.

Definition clCreateProgramWithSource (e : environment) : prog Z :=
  cl_create (st_clCreateProgramWithSource e) Program.

Definition clBuildProgram (e : environment) : prog Z :=
  cl_status (st_clBuildProgram e).

Definition clCreateKernel (e : environment) : prog Z :=
  cl_create (st_clCreateKernel e) Kernel.

Definition clSetKernelArg (e : environment) (arg_index : nat) : prog Z :=
  cl_status (st_clSetKernelArg e arg_index).

(** [clCreateBuffer]: on success the buffer of handle [h] holds [contents]. *)
Definition clCreateBuffer (status : Z) (r : resource) (h : nat)
    (contents : list uchar) : prog (nat * Z) :=
  λ w, if bool_decide (status ≠ CL_SUCCESS)
       then (Next (NULL, status), w)
       else (Next (h, status), acquire r (set_device <[h := contents]> w)).

(** [clEnqueueNDRangeKernel] of [convertToGrayscale] with the bound
    arguments over the range [globalWorkSize]; the queue is in order, so the
    work is done before the next command. *)
Definition clEnqueueNDRangeKernel (e : environment)
    (inputBuffer outputBuffer : nat) (width height : Z)
    (globalWorkSize : Z * Z) : prog Z :=
  λ w, if bool_decide (st_clEnqueueNDRangeKernel e ≠ CL_SUCCESS)
       then (Next (st_clEnqueueNDRangeKernel e), w)
       else (Next (st_clEnqueueNDRangeKernel e),
             set_device (λ m,
               default (faulted_device e)
                 (dispatch inputBuffer outputBuffer width height
                    (schedule e (grid globalWorkSize.1 globalWorkSize.2)) m)) w).

(** Blocking [clEnqueueReadBuffer] of [size] bytes into a host image. *)
Definition clEnqueueReadBuffer (e : environment) (buffer : nat) (size : Z)
    (dst : Mat) : prog (Mat * Z) :=
  λ w, if bool_decide (st_clEnqueueReadBuffer e ≠ CL_SUCCESS)
       then (Next (dst, st_clEnqueueReadBuffer e), w)
       else (Next (mkMat (rows dst) (cols dst) (channels dst)
                     (default (data dst) (take (Z.to_nat size) <$> device w !! buffer)),
                   st_clEnqueueReadBuffer e), w).

(** The release of an object that was created. *)
Definition cl_release (r : resource) : prog unit := modify (release r).

Definition clReleaseKernel : prog unit := cl_release Kernel.
Definition clReleaseProgram : prog unit := cl_release Program.
Definition clReleaseCommandQueue : prog unit := cl_release CommandQueue.
Definition clReleaseContext : prog unit := cl_release Context.

(** [clReleaseMemObject]: the buffer is released with its memory; a null
    handle releases nothing. *)
Definition clReleaseMemObject (r : resource) (h : nat) : prog unit :=
  modify (λ w, match h with
               | O => w
               | S _ => release r (set_device (delete h) w)
               end).

(** ** [main] *)

Definition main (e : environment) : prog unit :=
  coutbuf ← cout_get_rdbuf;
  cerrbuf ← cerr_get_rdbuf;
  cout_set_rdbuf to_devnull;;
  cerr_set_rdbuf to_devnull;;

  inputImg ← imread "ISIC_0073502.jpg";
  when (Mat_empty inputImg)
    (cerr_endl "Couldn't find the input image with specified link.";;
     return_ 1);;

  (* cv::ocl::setUseOpenCL(true) changes nothing that this program reads. *)
  let inputImgRGBA := cvtColor inputImg COLOR_BGR2RGBA in

  errorVar ← clGetPlatformIDs e;
  when (bool_decide (errorVar ≠ CL_SUCCESS))
    (cerr_endl "Failed to get the platform ID.";; return_ 1);;

  errorVar ← clGetDeviceIDs e;
  when (bool_decide (errorVar ≠ CL_SUCCESS))
    (cerr_endl "Failed to get the device ID.";; return_ 1);;

  errorVar ← clCreateContext e;
  when (bool_decide (errorVar ≠ CL_SUCCESS))
    (cerr_endl "Failed to create the context.";; return_ 1);;

  errorVar ← clCreateCommandQueueWithProperties e;
  when (bool_decide (errorVar ≠ CL_SUCCESS))
    (cerr_endl "Failed to create the command queue.";; return_ 1);;

  errorVar ← clCreateProgramWithSource e;
  when (bool_decide (errorVar ≠ CL_SUCCESS))
    (cerr_endl "Failed to create the program.";; return_ 1);;

  errorVar ← clBuildProgram e;
  when (bool_decide (errorVar ≠ CL_SUCCESS))
    (cerr_endl "Failed to build the program.";; return_ 1);;

  errorVar ← clCreateKernel e;
  when (bool_decide (errorVar ≠ CL_SUCCESS))
    (cerr_endl "Failed to create the kernel.";; return_ 1);;

  let width := cols inputImgRGBA in
  let height := rows inputImgRGBA in
  (* sizeof(uchar) * 4 * width * height *)
  let size := size_t_mul (size_t_mul (size_t_mul 1 4) width) height in
  '(inputBuffer, errorVar) ←
    clCreateBuffer (st_clCreateBuffer_input e) InputBuffer 1%nat
      (take (Z.to_nat size) (data inputImgRGBA));
  '(outputBuffer, errorVar) ←
    clCreateBuffer (st_clCreateBuffer_output e) OutputBuffer 2%nat
      (resize (Z.to_nat size) Byte.x00 (device_junk e));

  errorVar ← clSetKernelArg e 0%nat;
  errorVar1 ← clSetKernelArg e 1%nat;
  let errorVar := Z.lor errorVar errorVar1 in
  errorVar2 ← clSetKernelArg e 2%nat;
  let errorVar := Z.lor errorVar errorVar2 in
  errorVar3 ← clSetKernelArg e 3%nat;
  let errorVar := Z.lor errorVar errorVar3 in
  when (bool_decide (errorVar ≠ CL_SUCCESS))
    (cerr_endl "Error: Failed to set kernel arguments.";; return_ 1);;

  let globalWorkSize := (size_t width, size_t height) in
  errorVar ← clEnqueueNDRangeKernel e inputBuffer outputBuffer width height
               globalWorkSize;
  when (bool_decide (errorVar ≠ CL_SUCCESS))
    (cerr_endl "Error: Failed to execute kernel.";; return_ 1);;

  let outputImgRGBA :=
    mkMat height width 4
          (resize (Z.to_nat (4 * width * height)) Byte.x00 (host_junk e)) in
  '(outputImgRGBA, errorVar) ← clEnqueueReadBuffer e outputBuffer size outputImgRGBA;
  when (bool_decide (errorVar ≠ CL_SUCCESS))
    (cerr_endl "Error: Failed to read buffer.";; return_ 1);;

  let outputImg := cvtColor outputImgRGBA COLOR_RGBA2BGR in

  imwrite e "GreyScaledImage.jpg" outputImg;;

  clReleaseMemObject InputBuffer inputBuffer;;
  clReleaseMemObject OutputBuffer outputBuffer;;
  clReleaseKernel;;
  clReleaseProgram;;
  clReleaseCommandQueue;;
  clReleaseContext;;

  cout_set_rdbuf coutbuf;;
  cerr_set_rdbuf cerrbuf;;

  cout_endl "Grayscale conversion has been completed. The Output saved as GreyScaledImage.jpg";;

  return_ 0.

(** The world a process starts in: the streams go to the console, no OpenCL
    object exists, and [fs] are the files on disk. *)
Definition initial_world (fs : gmap string Mat) : world :=
  mkWorld (mkStreams to_stdout to_stderr [] [] []) fs [] [] ∅.

(** One run of the program. *)
Definition run (e : environment) (fs : gmap string Mat) : outcome unit * world :=
  main e (initial_world fs).

(** The exit code of the process: the value [main] returns. *)
Definition exit_code (r : outcome unit * world) : Z :=
  match r.1 with
  | Return code => code
  | Next _ => 0
  end.

(** ** The failures [main] checks for *)

(** The checks of [main], in program order: each guards one [return 1]. *)
Inductive stage :=
  | Decode | Platform | Device | ContextCreation | QueueCreation
  | ProgramCreation | Build | KernelCreation | ArgBind | Enqueue | Readback.

(** The line [main] writes to [std::cerr] when the check fails. *)
Definition diagnostic (s : stage) : string :=
  match s with
  | Decode => "Couldn't find the input image with specified link."
  | Platform => "Failed to get the platform ID."
  | Device => "Failed to get the device ID."
  | ContextCreation => "Failed to create the context."
  | QueueCreation => "Failed to create the command queue."
  | ProgramCreation => "Failed to create the program."
  | Build => "Failed to build the program."
  | KernelCreation => "Failed to create the kernel."
  | ArgBind => "Error: Failed to set kernel arguments."
  | Enqueue => "Error: Failed to execute kernel."
  | Readback => "Error: Failed to read buffer."
  end.

Definition input_path : string := "ISIC_0073502.jpg".
Definition output_path : string := "GreyScaledImage.jpg".

(** The first failure of a run among those [main] checks for: the input
    file cannot be read, or a call whose status [main] tests reports an
    error. The statuses of the two [clCreateBuffer] calls and the result of
    [cv::imwrite] are not among them. *)
Definition first_failure (e : environment) (fs : gmap string Mat) : option stage :=
  if Mat_empty (default no_Mat (fs !! input_path)) then Some Decode
  else if bool_decide (st_clGetPlatformIDs e ≠ CL_SUCCESS) then Some Platform
  else if bool_decide (st_clGetDeviceIDs e ≠ CL_SUCCESS) then Some Device
  else if bool_decide (st_clCreateContext e ≠ CL_SUCCESS) then Some ContextCreation
  else if bool_decide (st_clCreateCommandQueueWithProperties e ≠ CL_SUCCESS)
    then Some QueueCreation
  else if bool_decide (st_clCreateProgramWithSource e ≠ CL_SUCCESS)
    then Some ProgramCreation
  else if bool_decide (st_clBuildProgram e ≠ CL_SUCCESS) then Some Build
  else if bool_decide (st_clCreateKernel e ≠ CL_SUCCESS) then Some KernelCreation
  else if bool_decide (st_clSetKernelArg e 0%nat ≠ CL_SUCCESS
                       ∨ st_clSetKernelArg e 1%nat ≠ CL_SUCCESS
                       ∨ st_clSetKernelArg e 2%nat ≠ CL_SUCCESS
                       ∨ st_clSetKernelArg e 3%nat ≠ CL_SUCCESS) then Some ArgBind
  else if bool_decide (st_clEnqueueNDRangeKernel e ≠ CL_SUCCESS) then Some Enqueue
  else if bool_decide (st_clEnqueueReadBuffer e ≠ CL_SUCCESS) then Some Readback
  else None.

(** The OpenCL objects that exist when the check [s] is made, in the order
    [main] creates them (the two buffers, whose creation is not checked,
    apart). *)
Definition acquired_before (s : stage) : list resource :=
  match s with
  | Decode | Platform | Device | ContextCreation => []
  | QueueCreation => [Context]
  | ProgramCreation => [Context; CommandQueue]
  | Build | KernelCreation => [Context; CommandQueue; Program]
  | ArgBind | Enqueue | Readback => [Context; CommandQueue; Program; Kernel]
  end.

Definition success_line : string :=
  "Grayscale conversion has been completed. The Output saved as GreyScaledImage.jpg".

(** A run that left [main] through the [return 1] of the check [s]: the
    diagnostic went through [std::cerr] to [/dev/null], nothing reached the
    process's own streams, no file changed, and nothing was released. *)
Definition failed_run (fs : gmap string Mat) (s : stage)
    (r : outcome unit * world) : Prop :=
  ∃ bufs dev,
    r = (Return 1,
         mkWorld (mkStreams to_devnull to_devnull [] [] [diagnostic s])
                 fs (acquired_before s ++ bufs) [] dev).

(** A run that reached [return 0]: the streams are restored and the one
    line on standard output is the success line. *)
Definition completed_run (e : environment) (fs : gmap string Mat)
    (r : outcome unit * world) : Prop :=
  ∃ img acq rel dev,
    r = (Return 0,
         mkWorld (mkStreams to_stdout to_stderr [success_line] [] [])
                 (if imwrite_ok e then <[output_path := img]> fs else fs)
                 acq rel dev).

Definition run_post (e : environment) (fs : gmap string Mat) (o : option stage)
    (r : outcome unit * world) : Prop :=
  match o with
  | Some s => failed_run fs s r
  | None => completed_run e fs r
  end.

(** ** The image a successful run writes *)

(** The gray bytes of RGBA bytes: per pixel, [(g, g, g, A)]. *)
Fixpoint gray_RGBA (d : list uchar) : list uchar :=
  match d with
  | r :: g :: b :: a :: rest =>
      let v := grayscale (uchar4.mk r g b a) in
      v :: v :: v :: a :: gray_RGBA rest
  | _ => []
  end.

(** The gray bytes of BGR bytes: per pixel, [(g, g, g)]. *)
Fixpoint gray_BGR (d : list uchar) : list uchar :=
  match d with
  | b :: g :: r :: rest =>
      let v := grayscale (uchar4.mk r g b Byte.xff) in
      v :: v :: v :: gray_BGR rest
  | _ => []
  end.

(** An image as [cv::imread] with [cv::IMREAD_COLOR] decodes it: three
    channels, at least one pixel, and no more pixels than the kernel can
    index. *)
Definition decoded_image (img : Mat) : Prop :=
  1 ≤ cols img ∧ 1 ≤ rows img ∧ cols img * rows img ≤ 2 ^ 31
  ∧ channels img = 3
  ∧ Z.of_nat (length (data img)) = 3 * cols img * rows img.

(** A driver and a codec whose every call succeeds, and a device that runs
    each work-item of a range once. *)
Definition all_calls_succeed (e : environment) : Prop :=
  st_clGetPlatformIDs e = CL_SUCCESS
  ∧ st_clGetDeviceIDs e = CL_SUCCESS
  ∧ st_clCreateContext e = CL_SUCCESS
  ∧ st_clCreateCommandQueueWithProperties e = CL_SUCCESS
  ∧ st_clCreateProgramWithSource e = CL_SUCCESS
  ∧ st_clBuildProgram e = CL_SUCCESS
  ∧ st_clCreateKernel e = CL_SUCCESS
  ∧ st_clCreateBuffer_input e = CL_SUCCESS
  ∧ st_clCreateBuffer_output e = CL_SUCCESS
  ∧ (∀ i, st_clSetKernelArg e i = CL_SUCCESS)
  ∧ st_clEnqueueNDRangeKernel e = CL_SUCCESS
  ∧ st_clEnqueueReadBuffer e = CL_SUCCESS
  ∧ imwrite_ok e = true
  ∧ ∀ l, schedule e l ≡ₚ l.

(** ** The OpenCL objects a run holds *)

(** The buffers the two [clCreateBuffer] calls of [main] created: a call
    that reports an error creates nothing. *)
Definition buffers_created (e : environment) : list resource :=
  (if bool_decide (st_clCreateBuffer_input e ≠ CL_SUCCESS) then [] else [InputBuffer])
  ++ (if bool_decide (st_clCreateBuffer_output e ≠ CL_SUCCESS) then []
      else [OutputBuffer]).

(** What a run leaves of the OpenCL objects and of the files. A run that
    left through the [return 1] of the check [o] holds the objects created
    before that check and has released none. A run that reached [return 0]
    has created the context, the queue, the program, the kernel and the
    buffers [bufs], has released the buffers first and the other four in the
    reverse order of their creation, and has written, if the codec did
    write, an image of three channels and of the size of the input to the
    output path. *)
Definition ledger_post (fs : gmap string Mat) (bufs : list resource)
    (written : bool) (o : option stage) (r : outcome unit * world) : Prop :=
  match o with
  | Some s =>
      acquisitions r.2
      = acquired_before s
        ++ match s with ArgBind | Enqueue | Readback => bufs | _ => [] end
      ∧ releases r.2 = []
  | None =>
      acquisitions r.2 = [Context; CommandQueue; Program; Kernel] ++ bufs
      ∧ releases r.2 = bufs ++ [Kernel; Program; CommandQueue; Context]
      ∧ ∃ d, files r.2
             = if written
               then <[output_path :=
                        mkMat (rows (default no_Mat (fs !! input_path)))
                              (cols (default no_Mat (fs !! input_path))) 3 d]> fs
               else fs
  end.

(** ** Sample inputs *)

(** An image of 65536 x 32769 pixels, every byte zero. *)
Definition black_65536_32769 : list uchar :=
  replicate (Z.to_nat (4 * 65536 * 32769)) Byte.x00.

(** An image of 46341 x 46341 pixels, every byte 128: every pixel is gray. *)
Definition gray_46341_46341 : list uchar :=
  replicate (Z.to_nat (4 * 46341 * 46341)) Byte.x80.

(** A BGR image of one row of two pixels, and a disk that holds it at the
    input path. *)
Definition two_pixels : Mat := mkMat 1 2 3 (bytes [90; 60; 30; 0; 0; 255]).

Definition disk : gmap string Mat := {[ input_path := two_pixels ]}.

(** A driver and codec for which every call succeeds; the two work-items
    run in row order and fresh memory holds zeros. *)
Definition driver_ok : environment :=
  mkEnvironment 0 0 0 0 0 0 0 0 0 (λ _, 0) 0 0 true id [] [] ∅.

(** The same, but [clCreateCommandQueueWithProperties] reports
    [CL_OUT_OF_HOST_MEMORY] (-6). *)
Definition queue_refused : environment :=
  mkEnvironment 0 0 0 (-6) 0 0 0 0 0 (λ _, 0) 0 0 true id [] [] ∅.

(** The same as [driver_ok], but the [clCreateBuffer] call for the input
    buffer reports [CL_MEM_OBJECT_ALLOCATION_FAILURE] (-4). *)
Definition input_buffer_refused : environment :=
  mkEnvironment 0 0 0 0 0 0 0 (-4) 0 (λ _, 0) 0 0 true id [] [] ∅.

(** The same as [driver_ok], but [clGetDeviceIDs] reports
    [CL_DEVICE_NOT_FOUND] (-1): the host has no GPU. *)
Definition device_not_found : environment :=
  mkEnvironment 0 (-1) 0 0 0 0 0 0 0 (λ _, 0) 0 0 true id [] [] ∅.

(** The same as [driver_ok], but [cv::imwrite] returns [false]: the output
    file cannot be written. *)
Definition imwrite_refused : environment :=
  mkEnvironment 0 0 0 0 0 0 0 0 0 (λ _, 0) 0 0 false id [] [] ∅.

(** An output buffer of 65536 x 32769 pixels, every byte 255. *)
Definition white_65536_32769 : list uchar :=
  replicate (Z.to_nat (4 * 65536 * 32769)) Byte.xff.

(** The world of a run on an image of 65536 x 32769 black pixels when
    [main] enqueues the kernel: the six objects are created, buffer 1 holds
    the image and buffer 2 holds zeros. *)
Definition world_65536_32769 : world :=
  mkWorld (mkStreams to_devnull to_devnull [] [] []) ∅
    [Context; CommandQueue; Program; Kernel; InputBuffer; OutputBuffer] []
    (<[2%nat := black_65536_32769]> (<[1%nat := black_65536_32769]> ∅)).

(** The same as [driver_ok], but a kernel whose accesses left the buffers
    happens to leave the two buffers as they were before it ran. *)
Definition fault_unseen : environment :=
  mkEnvironment 0 0 0 0 0 0 0 0 0 (λ _, 0) 0 0 true id [] []
    (<[2%nat := black_65536_32769]> (<[1%nat := black_65536_32769]> ∅)).

(** The same as [driver_ok], but a kernel whose accesses left the buffers
    leaves every byte of the two buffers at 255. *)
Definition fault_wild : environment :=
  mkEnvironment 0 0 0 0 0 0 0 0 0 (λ _, 0) 0 0 true id [] []
    (<[2%nat := white_65536_32769]> (<[1%nat := white_65536_32769]> ∅)).

(** A disk without the input file, on which an earlier run left its output
    file. *)
Definition disk_without_input : gmap string Mat :=
  {[ output_path := two_pixels ]}.

(** * Proof automation *)

(** Symbolic execution of [main]: the run [r] is brought to the next check
    that is still undecided, and no further. *)
Ltac run_head r :=
  eval lazy head beta iota zeta delta
    [run main initial_world
     mbind prog_bind mret prog_ret when return_ modify
     cout_get_rdbuf cerr_get_rdbuf cout_set_rdbuf cerr_set_rdbuf
     cout_endl cerr_endl imread imwrite
     cl_status cl_create clGetPlatformIDs clGetDeviceIDs clCreateContext
     clCreateCommandQueueWithProperties clCreateProgramWithSource
     clBuildProgram clCreateKernel clSetKernelArg
     clCreateBuffer clEnqueueNDRangeKernel clEnqueueReadBuffer
     cl_release clReleaseKernel clReleaseProgram clReleaseCommandQueue
     clReleaseContext clReleaseMemObject
     set_io set_files set_device acquire release write_line
     io files acquisitions releases device
     cout_rdbuf cerr_rdbuf stdout_lines stderr_lines devnull_lines
     fst snd] in r.

Ltac run_to_check :=
  match goal with
  | |- run_post _ _ _ ?r => let r' := run_head r in change r with r'
  | |- ?r = _ => let r' := run_head r in change r with r'
  end.

(** A run that has ended: the final world is computed and compared. *)
Ltac run_ended :=
  cbv beta iota zeta delta
    [run_post failed_run completed_run diagnostic acquired_before app
     input_path output_path success_line
     set_io set_files set_device acquire release write_line
     io files acquisitions releases device
     cout_rdbuf cerr_rdbuf stdout_lines stderr_lines devnull_lines];
  repeat eexists.

(** The check [c] of [main] fails, which ends the run, or passes. *)
Ltac check c :=
  let E := fresh "E" in
  destruct (bool_decide c) eqn:E; cbv beta iota;
  do 2 (run_to_check; rewrite ?E; cbv beta iota);
  [run_ended|].

(** The status of a [clCreateBuffer] call, which [main] does not test. *)
Ltac unchecked c :=
  let E := fresh "E" in
  destruct (bool_decide c) eqn:E; cbv beta iota;
  do 2 (run_to_check; rewrite ?E; cbv beta iota).

(** The same steps for the objects a run holds. *)
Ltac ledger_to_check :=
  match goal with
  | |- ledger_post _ _ _ _ ?r => let r' := run_head r in change r with r'
  end.

Ltac ledger_ended :=
  cbv beta iota zeta delta
    [ledger_post acquired_before app input_path output_path
     initial_world set_io set_files set_device acquire release write_line
     io files acquisitions releases device cvtColor rows cols channels data
     cout_rdbuf cerr_rdbuf stdout_lines stderr_lines devnull_lines fst snd NULL];
  repeat first [split | eexists | reflexivity].

Ltac ledger_check c :=
  let E := fresh "E" in
  destruct (bool_decide c) eqn:E; cbv beta iota;
  do 2 (ledger_to_check; rewrite ?E; cbv beta iota);
  [ledger_ended|].

Ltac ledger_unchecked c :=
  let E := fresh "E" in
  destruct (bool_decide c) eqn:E; cbv beta iota;
  do 2 (ledger_to_check; rewrite ?E; cbv beta iota).

(** The objects of a list are pairwise distinct. *)
Ltac distinct_resources :=
  repeat (apply NoDup_cons_2;
          [let Hx := fresh "Hx" in
           intros Hx;
           repeat (apply elem_of_cons in Hx as [Hx|Hx]; [discriminate Hx|]);
           by apply elem_of_nil in Hx|]);
  apply NoDup_nil_2.


(** * Properties of the kernel *)

(** ** Machine arithmetic *)

Lemma uchar_to_int_range (b : uchar) : 0 ≤ uchar_to_int b ≤ 255.
Proof.
  unfold uchar_to_int. pose proof (Strings.Byte.to_N_bounded b). lia.
Qed.

Lemma int_to_uchar_to_int (v : Z) : uchar_to_int (int_to_uchar v) = v mod 256.
Proof.
  unfold uchar_to_int, int_to_uchar.
  pose proof (Z.mod_pos_bound v 256 eq_refl) as Hb.
  destruct (Strings.Byte.of_N (Z.to_N (v mod 256))) as [b|] eqn:E; simpl.
  - apply Strings.Byte.to_of_N in E. rewrite E. lia.
  - apply Strings.Byte.of_N_None_iff in E. lia.
Qed.

Lemma uchar_to_int_inj (a b : uchar) : uchar_to_int a = uchar_to_int b → a = b.
Proof.
  unfold uchar_to_int. intros H. apply N2Z.inj in H.
  pose proof (Strings.Byte.of_to_N a) as Ha.
  pose proof (Strings.Byte.of_to_N b) as Hb.
  rewrite H in Ha. congruence.
Qed.

Lemma uchar_to_int_to_uchar (b : uchar) : int_to_uchar (uchar_to_int b) = b.
Proof.
  apply uchar_to_int_inj. rewrite int_to_uchar_to_int.
  apply Z.mod_small. pose proof (uchar_to_int_range b). lia.
Qed.

Lemma wrap_int_range (v : Z) : - 2 ^ 31 ≤ wrap_int v < 2 ^ 31.
Proof.
  unfold wrap_int. pose proof (Z.mod_pos_bound (v + 2 ^ 31) (2 ^ 32) eq_refl). lia.
Qed.

Lemma wrap_int_small (v : Z) : - 2 ^ 31 ≤ v < 2 ^ 31 → wrap_int v = v.
Proof. intros Hv. unfold wrap_int. rewrite Z.mod_small; lia. Qed.

Lemma wrap_int_add_l (a b : Z) : wrap_int (wrap_int a + b) = wrap_int (a + b).
Proof.
  unfold wrap_int. f_equal.
  replace ((a + 2 ^ 31) mod 2 ^ 32 - 2 ^ 31 + b + 2 ^ 31)
    with ((a + 2 ^ 31) mod 2 ^ 32 + b) by lia.
  rewrite Z.add_mod_idemp_l by lia. f_equal. lia.
Qed.

Lemma wrap_int_add_r (a b : Z) : wrap_int (a + wrap_int b) = wrap_int (a + b).
Proof. rewrite (Z.add_comm a), wrap_int_add_l. f_equal. lia. Qed.

Lemma wrap_int_mul_l (a b : Z) : wrap_int (wrap_int a * b) = wrap_int (a * b).
Proof.
  unfold wrap_int. f_equal.
  replace (((a + 2 ^ 31) mod 2 ^ 32 - 2 ^ 31) * b + 2 ^ 31)
    with ((a + 2 ^ 31) mod 2 ^ 32 * b + (2 ^ 31 - 2 ^ 31 * b)) by lia.
  rewrite <- Z.add_mod_idemp_l by lia.
  rewrite Z.mul_mod_idemp_l by lia.
  rewrite Z.add_mod_idemp_l by lia. f_equal. lia.
Qed.

(** The index a work-item computes is [y * W + x] reduced to an [int]. *)
Lemma pixel_index_wrap (W x y : Z) : pixel_index W (x, y) = wrap_int (y * W + x).
Proof.
  unfold pixel_index, int_add, int_mul. simpl.
  rewrite wrap_int_add_l, wrap_int_add_r.
  rewrite <- wrap_int_add_l, wrap_int_mul_l, wrap_int_add_l. reflexivity.
Qed.

(** The sum of three promoted channels and its third, as [int]s: nothing
    wraps. *)
Lemma grayscale_value (px : uchar4.t) :
  uchar_to_int (grayscale px)
  = (uchar_to_int (uchar4.x px) + uchar_to_int (uchar4.y px)
     + uchar_to_int (uchar4.z px)) ÷ 3.
Proof.
  pose proof (uchar_to_int_range (uchar4.x px)).
  pose proof (uchar_to_int_range (uchar4.y px)).
  pose proof (uchar_to_int_range (uchar4.z px)).
  unfold grayscale, int_div, int_add.
  rewrite int_to_uchar_to_int.
  rewrite (wrap_int_small (_ + uchar_to_int (uchar4.y px))) by lia.
  rewrite (wrap_int_small (_ + uchar_to_int (uchar4.z px))) by lia.
  set (s := _ + _ + _) in *.
  assert (0 ≤ s ÷ 3 ≤ 255) as Hq.
  { rewrite Z.quot_div_nonneg by lia.
    split; [apply Z.div_pos; lia | apply Z.div_le_upper_bound; lia]. }
  rewrite wrap_int_small by lia. apply Z.mod_small. lia.
Qed.

(** ** Loads and stores of [uchar4] *)

Lemma load_uchar4_Some (buf : list uchar) (i : Z) (px : uchar4.t) :
  load_uchar4 buf i = Some px ↔
  0 ≤ i ∧ buf !! Z.to_nat (4 * i) = Some (uchar4.x px)
  ∧ buf !! (Z.to_nat (4 * i) + 1)%nat = Some (uchar4.y px)
  ∧ buf !! (Z.to_nat (4 * i) + 2)%nat = Some (uchar4.z px)
  ∧ buf !! (Z.to_nat (4 * i) + 3)%nat = Some (uchar4.w px).
Proof.
  unfold load_uchar4. destruct px as [a b c d]; simpl. case_decide.
  - split; [done | lia].
  - destruct (buf !! Z.to_nat (4 * i)) as [b0|]; simpl;
      [|by split; [|intros (?&?&?&?&?)]].
    destruct (buf !! (Z.to_nat (4 * i) + 1)%nat) as [b1|]; simpl;
      [|by split; [|intros (?&?&?&?&?)]].
    destruct (buf !! (Z.to_nat (4 * i) + 2)%nat) as [b2|]; simpl;
      [|by split; [|intros (?&?&?&?&?)]].
    destruct (buf !! (Z.to_nat (4 * i) + 3)%nat) as [b3|]; simpl;
      [|by split; [|intros (?&?&?&?&?)]].
    split.
    + intros [= -> -> -> ->]. split_and!; [lia|done..].
    + intros (_ & [= ->] & [= ->] & [= ->] & [= ->]). done.
Qed.

Lemma load_uchar4_in_range (buf : list uchar) (i : Z) :
  is_Some (load_uchar4 buf i) ↔ 0 ≤ i ∧ 4 * i + 4 ≤ Z.of_nat (length buf).
Proof.
  split.
  - intros [px Hpx]. apply load_uchar4_Some in Hpx as (Hi & _ & _ & _ & H3).
    apply lookup_lt_Some in H3. lia.
  - intros [Hi Hlen]. unfold load_uchar4. rewrite decide_False by lia.
    destruct (lookup_lt_is_Some_2 buf (Z.to_nat (4 * i))) as [b0 ->]; [lia|].
    destruct (lookup_lt_is_Some_2 buf (Z.to_nat (4 * i) + 1)) as [b1 ->]; [lia|].
    destruct (lookup_lt_is_Some_2 buf (Z.to_nat (4 * i) + 2)) as [b2 ->]; [lia|].
    destruct (lookup_lt_is_Some_2 buf (Z.to_nat (4 * i) + 3)) as [b3 ->]; [lia|].
    simpl. eauto.
Qed.

Lemma store_uchar4_in_range (buf : list uchar) (i : Z) (v : uchar4.t) :
  is_Some (store_uchar4 buf i v) ↔ 0 ≤ i ∧ 4 * i + 4 ≤ Z.of_nat (length buf).
Proof.
  unfold store_uchar4. repeat case_decide; split;
    try (intros [? [=]]); try (intros [? ?]; lia); eauto; lia.
Qed.

Lemma store_uchar4_length (buf buf' : list uchar) (i : Z) (v : uchar4.t) :
  store_uchar4 buf i v = Some buf' → length buf' = length buf.
Proof.
  unfold store_uchar4. repeat case_decide; intros [= <-].
  by rewrite !length_insert.
Qed.

(** A store changes the four bytes of its pixel and no other byte. *)
Lemma store_uchar4_lookup_other (buf buf' : list uchar) (i : Z) (v : uchar4.t)
    (j : nat) :
  store_uchar4 buf i v = Some buf' → Z.of_nat j / 4 ≠ i → buf' !! j = buf !! j.
Proof.
  unfold store_uchar4. repeat case_decide; intros [= <-] Hj.
  assert (Z.of_nat j < 4 * i ∨ 4 * i + 4 ≤ Z.of_nat j) as Hout.
  { destruct (decide (Z.of_nat j < 4 * i)); [by left | right].
    destruct (decide (4 * i + 4 ≤ Z.of_nat j)); [done | exfalso].
    apply Hj. symmetry. apply (Z.div_unique _ 4 i (Z.of_nat j - 4 * i)); lia. }
  rewrite !list_lookup_insert_ne by lia. done.
Qed.

Lemma store_uchar4_load_same (buf buf' : list uchar) (i : Z) (v : uchar4.t) :
  store_uchar4 buf i v = Some buf' → load_uchar4 buf' i = Some v.
Proof.
  unfold store_uchar4. repeat case_decide; intros [= <-].
  apply load_uchar4_Some. split; [lia|].
  split_and!.
  - rewrite !list_lookup_insert_ne by lia.
    apply list_lookup_insert_eq. lia.
  - rewrite !list_lookup_insert_ne by lia.
    apply list_lookup_insert_eq. rewrite !length_insert. lia.
  - rewrite !list_lookup_insert_ne by lia.
    apply list_lookup_insert_eq. rewrite !length_insert. lia.
  - apply list_lookup_insert_eq. rewrite !length_insert. lia.
Qed.

(** A load only depends on the four bytes of its pixel. *)
Lemma load_uchar4_ext (buf buf' : list uchar) (i : Z) :
  (∀ j : nat, Z.of_nat j / 4 = i → buf' !! j = buf !! j) →
  load_uchar4 buf' i = load_uchar4 buf i.
Proof.
  intros Hext. unfold load_uchar4. case_decide; [done|].
  assert (∀ c : nat, (c < 4)%nat →
            buf' !! (Z.to_nat (4 * i) + c)%nat = buf !! (Z.to_nat (4 * i) + c)%nat)
    as Hsame.
  { intros c Hc. apply Hext. symmetry.
    apply (Z.div_unique _ 4 i (Z.of_nat c)); lia. }
  pose proof (Hsame 0%nat) as H0. rewrite Nat.add_0_r in H0.
  rewrite H0, !Hsame by lia. done.
Qed.

Lemma store_uchar4_load_other (buf buf' : list uchar) (i i' : Z) (v : uchar4.t) :
  store_uchar4 buf i v = Some buf' → i' ≠ i →
  load_uchar4 buf' i' = load_uchar4 buf i'.
Proof.
  intros Hst Hne. apply load_uchar4_ext. intros j Hj.
  eapply store_uchar4_lookup_other; [done | congruence].
Qed.

(** ** One work-item *)

Section work_item.
Variables (inputImage outputImage : nat) (W H : Z).

Lemma convertToGrayscale_inv (gid : Z * Z) (m m' : gmap nat (list uchar)) :
  convertToGrayscale inputImage outputImage W H gid m = Some m' →
  ∃ inbuf outbuf px outbuf',
    m !! inputImage = Some inbuf ∧ m !! outputImage = Some outbuf
    ∧ load_uchar4 inbuf (pixel_index W gid) = Some px
    ∧ store_uchar4 outbuf (pixel_index W gid) (gray_pixel px) = Some outbuf'
    ∧ m' = <[outputImage := outbuf']> m.
Proof.
  unfold convertToGrayscale. intros Hk.
  apply bind_Some in Hk as (inbuf & Hin & Hk).
  apply bind_Some in Hk as (px & Hld & Hk).
  apply bind_Some in Hk as (outbuf & Hout & Hk).
  apply bind_Some in Hk as (outbuf' & Hst & Hk).
  injection Hk as <-. by exists inbuf, outbuf, px, outbuf'.
Qed.

Lemma convertToGrayscale_in_range (gid : Z * Z) (m : gmap nat (list uchar))
    (inbuf outbuf : list uchar) :
  m !! inputImage = Some inbuf → m !! outputImage = Some outbuf →
  0 ≤ pixel_index W gid →
  4 * pixel_index W gid + 4 ≤ Z.of_nat (length inbuf) →
  4 * pixel_index W gid + 4 ≤ Z.of_nat (length outbuf) →
  ∃ px outbuf',
    load_uchar4 inbuf (pixel_index W gid) = Some px
    ∧ store_uchar4 outbuf (pixel_index W gid) (gray_pixel px) = Some outbuf'
    ∧ convertToGrayscale inputImage outputImage W H gid m
      = Some (<[outputImage := outbuf']> m).
Proof.
  intros Hin Hout H0 Hli Hlo.
  destruct (proj2 (load_uchar4_in_range inbuf (pixel_index W gid))) as [px Hpx];
    [done|].
  destruct (proj2 (store_uchar4_in_range outbuf (pixel_index W gid) (gray_pixel px)))
    as [outbuf' Hst]; [done|].
  exists px, outbuf'. split_and!; [done..|].
  unfold convertToGrayscale.
  apply bind_Some. exists inbuf. split; [done|].
  apply bind_Some. exists px. split; [done|].
  apply bind_Some. exists outbuf. split; [done|].
  apply bind_Some. exists outbuf'. split; [exact Hst | done].
Qed.

(** ** A whole schedule *)

(** A dispatch that completes changed no buffer but the output buffer. *)
Lemma dispatch_frame (sched : list (Z * Z)) (m m' : gmap nat (list uchar))
    (h : nat) :
  dispatch inputImage outputImage W H sched m = Some m' →
  h ≠ outputImage → m' !! h = m !! h.
Proof.
  unfold dispatch. revert m. induction sched as [|gid rest IH]; intros m Hrun Hh.
  - simpl in Hrun. by simplify_eq.
  - simpl in Hrun.
    destruct (convertToGrayscale _ _ _ _ gid m) as [m1|] eqn:Hk; [|done].
    simpl in Hrun. rewrite (IH m1) by done.
    apply convertToGrayscale_inv in Hk as (? & ? & ? & ? & _ & _ & _ & _ & ->).
    by rewrite lookup_insert_ne.
Qed.

(** A dispatch that completes made only accesses inside both buffers. *)
Lemma dispatch_Some_in_range (sched : list (Z * Z)) (m m' : gmap nat (list uchar))
    (inbuf outbuf : list uchar) :
  inputImage ≠ outputImage →
  m !! inputImage = Some inbuf → m !! outputImage = Some outbuf →
  dispatch inputImage outputImage W H sched m = Some m' →
  ∀ gid, gid ∈ sched →
    0 ≤ pixel_index W gid
    ∧ 4 * pixel_index W gid + 4 ≤ Z.of_nat (length inbuf)
    ∧ 4 * pixel_index W gid + 4 ≤ Z.of_nat (length outbuf).
Proof.
  intros Hne. unfold dispatch. revert m outbuf.
  induction sched as [|g rest IH]; intros m outbuf Hin Hout Hrun gid Hgid.
  - by apply elem_of_nil in Hgid.
  - simpl in Hrun.
    destruct (convertToGrayscale _ _ _ _ g m) as [m1|] eqn:Hk; [|done].
    simpl in Hrun.
    apply convertToGrayscale_inv in Hk
      as (ib & ob & px & ob' & Hib & Hob & Hld & Hst & ->).
    rewrite Hin in Hib. injection Hib as <-.
    rewrite Hout in Hob. injection Hob as <-.
    apply elem_of_cons in Hgid as [->|Hgid].
    + pose proof (proj1 (load_uchar4_in_range _ _) (mk_is_Some _ _ Hld)).
      pose proof (proj1 (store_uchar4_in_range _ _ _) (mk_is_Some _ _ Hst)).
      lia.
    + rewrite <- (store_uchar4_length _ _ _ _ Hst).
      apply (IH (<[outputImage := ob']> m) ob'); try done.
      * by rewrite lookup_insert_ne.
      * by rewrite lookup_insert_eq.
Qed.

(** When every work-item of the schedule stays inside both buffers, the
    dispatch completes; each pixel a work-item addresses holds the gray pixel
    of the input pixel at the same index, and no other byte has changed. *)
Lemma dispatch_in_range (sched : list (Z * Z)) (m : gmap nat (list uchar))
    (inbuf outbuf : list uchar) :
  inputImage ≠ outputImage →
  m !! inputImage = Some inbuf → m !! outputImage = Some outbuf →
  (∀ gid, gid ∈ sched →
     0 ≤ pixel_index W gid
     ∧ 4 * pixel_index W gid + 4 ≤ Z.of_nat (length inbuf)
     ∧ 4 * pixel_index W gid + 4 ≤ Z.of_nat (length outbuf)) →
  ∃ outbuf',
    dispatch inputImage outputImage W H sched m
      = Some (<[outputImage := outbuf']> m)
    ∧ length outbuf' = length outbuf
    ∧ (∀ i, i ∈ pixel_index W <$> sched →
         load_uchar4 outbuf' i = gray_pixel <$> load_uchar4 inbuf i)
    ∧ (∀ j : nat, Z.of_nat j / 4 ∉ pixel_index W <$> sched →
         outbuf' !! j = outbuf !! j).
Proof.
  intros Hne. unfold dispatch. revert m outbuf.
  induction sched as [|g rest IH]; intros m outbuf Hin Hout Hrange.
  - exists outbuf. simpl. split_and!; [by rewrite insert_id | done | | done].
    intros i Hi. by apply elem_of_nil in Hi.
  - destruct (Hrange g) as (H0 & Hli & Hlo); [by left|].
    destruct (convertToGrayscale_in_range g m inbuf outbuf)
      as (px & ob1 & Hld & Hst & Hk); [done..|].
    pose proof (store_uchar4_length _ _ _ _ Hst) as Hlen1.
    destruct (IH (<[outputImage := ob1]> m) ob1) as (ob' & Hrun & Hlen & Hpix & Hrest).
    { by rewrite lookup_insert_ne. }
    { by rewrite lookup_insert_eq. }
    { intros gid Hgid. rewrite Hlen1. apply Hrange. by right. }
    exists ob'. simpl. rewrite Hk. simpl. rewrite Hrun, insert_insert_eq.
    split_and!; [done | congruence | |].
    + intros i Hi.
      destruct (decide (i ∈ pixel_index W <$> rest)) as [Hir|Hir]; [by apply Hpix|].
      apply elem_of_cons in Hi as [->|Hi]; [|done].
      rewrite Hld. simpl. rewrite <- (store_uchar4_load_same _ _ _ _ Hst).
      apply load_uchar4_ext. intros j Hj. apply Hrest. by rewrite Hj.
    + intros j Hj. apply not_elem_of_cons in Hj as [Hj1 Hj2].
      rewrite Hrest by done. by eapply store_uchar4_lookup_other.
Qed.

End work_item.

(** ** The range of [main]'s dispatch *)

Lemma elem_of_grid (W H x y : Z) : (x, y) ∈ grid W H ↔ 0 ≤ x < W ∧ 0 ≤ y < H.
Proof.
  unfold grid. rewrite list_elem_of_bind. split.
  - intros (y' & Hx & Hy). apply list_elem_of_bind in Hx as (x' & Hxy & Hx).
    apply list_elem_of_singleton in Hxy. injection Hxy as -> ->.
    apply elem_of_seqZ in Hx, Hy. lia.
  - intros [Hx Hy]. exists y. split; [|apply elem_of_seqZ; lia].
    apply list_elem_of_bind. exists x. split; [|apply elem_of_seqZ; lia].
    by apply list_elem_of_singleton.
Qed.

(** While [W * H] pixels can be counted in an [int], the index of the
    work-item [(x, y)] is [y * W + x] and addresses a pixel of the image. *)
Lemma pixel_index_grid (W H x y : Z) :
  W * H ≤ 2 ^ 31 → (x, y) ∈ grid W H →
  pixel_index W (x, y) = y * W + x ∧ 0 ≤ y * W + x < W * H.
Proof.
  intros Hsz [Hx Hy]%elem_of_grid.
  assert (0 ≤ y * W + x < W * H) as Hr by nia.
  split; [|done]. rewrite pixel_index_wrap. apply wrap_int_small. lia.
Qed.

Lemma grid_covers (W H i : Z) :
  1 ≤ W → W * H ≤ 2 ^ 31 → 0 ≤ i < W * H → i ∈ pixel_index W <$> grid W H.
Proof.
  intros HW Hsz Hi. apply list_elem_of_fmap. exists (i mod W, i / W).
  assert ((i mod W, i / W) ∈ grid W H) as Hin.
  { apply elem_of_grid. pose proof (Z.mod_pos_bound i W).
    split; [lia|]. split; [apply Z.div_pos; lia|].
    apply Z.div_lt_upper_bound; lia. }
  split; [|done].
  destruct (pixel_index_grid W H _ _ Hsz Hin) as [-> _].
  rewrite (Z.div_mod i W) at 1 by lia. lia.
Qed.

(** Past [2 ^ 31] pixels the work-item of flat position [2 ^ 31] computes a
    negative index. *)
Lemma grid_overflow (W H : Z) :
  1 ≤ W → 2 ^ 31 < W * H →
  ∃ gid, gid ∈ grid W H ∧ pixel_index W gid < 0.
Proof.
  intros HW Hsz. exists (2 ^ 31 mod W, 2 ^ 31 / W). split.
  - apply elem_of_grid. pose proof (Z.mod_pos_bound (2 ^ 31) W).
    split; [lia|]. split; [apply Z.div_pos; lia|].
    apply Z.div_lt_upper_bound; lia.
  - rewrite pixel_index_wrap.
    replace (2 ^ 31 / W * W + 2 ^ 31 mod W) with (2 ^ 31)
      by (rewrite (Z.div_mod (2 ^ 31) W) at 1 by lia; lia).
    done.
Qed.

(** ** The transform on buffers *)

Lemma transform_Some (W H : Z) (sched : list (Z * Z)) (inp junk out : list uchar) :
  transform W H sched inp junk = Some out ↔
  ∃ m, dispatch 1%nat 2%nat W H sched (<[2%nat := junk]> (<[1%nat := inp]> ∅)) = Some m
       ∧ m !! 2%nat = Some out.
Proof.
  unfold transform.
  destruct (dispatch 1%nat 2%nat W H sched _) as [m|]; simpl.
  - split; [intros Hm; by exists m | by intros (m' & [= <-] & Hm)].
  - split; [done | by intros (m' & [=] & _)].
Qed.

(** A transform that completes ran on an image of at most [2 ^ 31] pixels. *)
Lemma transform_Some_size (W H : Z) (sched : list (Z * Z))
    (inp junk out : list uchar) :
  1 ≤ W → is_schedule W H sched →
  transform W H sched inp junk = Some out → W * H ≤ 2 ^ 31.
Proof.
  intros HW Hsched (m & Hrun & _)%transform_Some.
  destruct (decide (W * H ≤ 2 ^ 31)) as [|Hbig]; [done | exfalso].
  destruct (grid_overflow W H) as (gid & Hgid & Hneg); [lia..|].
  rewrite <- Hsched in Hgid.
  eapply dispatch_Some_in_range in Hrun as (H0 & _); [| done | | | exact Hgid].
  - lia.
  - by rewrite lookup_insert_ne, lookup_insert_eq.
  - by rewrite lookup_insert_eq.
Qed.

(** Past [2 ^ 31] pixels the transform has no defined result, whatever the
    schedule and the buffers. *)
Lemma transform_overflow (W H : Z) (sched : list (Z * Z)) (inp junk : list uchar) :
  1 ≤ W → 2 ^ 31 < W * H → is_schedule W H sched →
  transform W H sched inp junk = None.
Proof.
  intros HW Hbig Hsched.
  destruct (transform W H sched inp junk) as [out|] eqn:Ht; [|done].
  apply transform_Some_size in Ht; [lia | done..].
Qed.

(** The dispatch of [main] on an image of at most [2 ^ 31] pixels, pixel by
    pixel. *)
Lemma dispatch_grid (W H : Z) (sched : list (Z * Z)) (inp junk : list uchar) :
  1 ≤ W → W * H ≤ 2 ^ 31 →
  Z.of_nat (length inp) = 4 * W * H → Z.of_nat (length junk) = 4 * W * H →
  is_schedule W H sched →
  ∃ out,
    dispatch 1%nat 2%nat W H sched (<[2%nat := junk]> (<[1%nat := inp]> ∅))
    = Some (<[2%nat := out]> (<[1%nat := inp]> ∅))
    ∧ length out = length inp
    ∧ ∀ i, 0 ≤ i < W * H →
        ∃ px, load_uchar4 inp i = Some px
              ∧ load_uchar4 out i = Some (gray_pixel px).
Proof.
  intros HW Hsz Hli Hlj Hsched.
  destruct (dispatch_in_range 1%nat 2%nat W H sched
              (<[2%nat := junk]> (<[1%nat := inp]> ∅)) inp junk)
    as (out & Hrun & Hlen & Hpix & _).
  - done.
  - by rewrite lookup_insert_ne, lookup_insert_eq.
  - by rewrite lookup_insert_eq.
  - intros [x y] Hgid. rewrite Hsched in Hgid.
    destruct (pixel_index_grid W H x y Hsz Hgid) as [-> Hr]. lia.
  - exists out. rewrite insert_insert_eq in Hrun. split_and!.
    + exact Hrun.
    + lia.
    + intros i Hi.
      destruct (proj2 (load_uchar4_in_range inp i)) as [px Hpx]; [lia|].
      exists px. split; [done|]. rewrite Hpix, Hpx; [done|].
      rewrite Hsched. by apply grid_covers.
Qed.

(** The transform of an image of at most [2 ^ 31] pixels, pixel by pixel. *)
Lemma transform_pixels (W H : Z) (sched : list (Z * Z)) (inp junk : list uchar) :
  1 ≤ W → W * H ≤ 2 ^ 31 →
  Z.of_nat (length inp) = 4 * W * H → Z.of_nat (length junk) = 4 * W * H →
  is_schedule W H sched →
  ∃ out, transform W H sched inp junk = Some out
    ∧ length out = length inp
    ∧ ∀ i, 0 ≤ i < W * H →
        ∃ px, load_uchar4 inp i = Some px
              ∧ load_uchar4 out i = Some (gray_pixel px).
Proof.
  intros HW Hsz Hli Hlj Hsched.
  destruct (dispatch_grid W H sched inp junk) as (out & Hrun & Hlen & Hpix);
    [done..|].
  exists out. split_and!; [|done..].
  apply transform_Some. eexists. split; [exact Hrun|].
  by rewrite lookup_insert_eq.
Qed.

(** Two buffers of [n] pixels that hold the same pixel at every index are
    the same bytes. *)
Lemma buffer_eq_pixels (n : Z) (l1 l2 : list uchar) :
  Z.of_nat (length l1) = 4 * n → length l2 = length l1 →
  (∀ i, 0 ≤ i < n → ∃ px, load_uchar4 l1 i = Some px ∧ load_uchar4 l2 i = Some px) →
  l1 = l2.
Proof.
  intros Hlen1 Hlen2 Hpix. apply list_eq. intros j.
  destruct (decide (j < length l1)%nat) as [Hj|Hj].
  - pose proof (Z.div_mod (Z.of_nat j) 4) as Hdm.
    pose proof (Z.mod_pos_bound (Z.of_nat j) 4) as Hm.
    destruct (Hpix (Z.of_nat j / 4)) as (px & H1 & H2); [lia|].
    apply load_uchar4_Some in H1 as (_ & Ha1 & Hb1 & Hc1 & Hd1).
    apply load_uchar4_Some in H2 as (_ & Ha2 & Hb2 & Hc2 & Hd2).
    assert (j = Z.to_nat (4 * (Z.of_nat j / 4))
            ∨ j = (Z.to_nat (4 * (Z.of_nat j / 4)) + 1)%nat
            ∨ j = (Z.to_nat (4 * (Z.of_nat j / 4)) + 2)%nat
            ∨ j = (Z.to_nat (4 * (Z.of_nat j / 4)) + 3)%nat) as Hcase by lia.
    destruct Hcase as [Hc|[Hc|[Hc|Hc]]]; rewrite Hc; congruence.
  - rewrite !lookup_ge_None_2 by lia. done.
Qed.

(** The pixel at index [i], byte by byte. *)
Lemma load_uchar4_bytes (buf : list uchar) (i : nat) (px : uchar4.t) :
  load_uchar4 buf (Z.of_nat i) = Some px ↔
  buf !! (4 * i)%nat = Some (uchar4.x px)
  ∧ buf !! (4 * i + 1)%nat = Some (uchar4.y px)
  ∧ buf !! (4 * i + 2)%nat = Some (uchar4.z px)
  ∧ buf !! (4 * i + 3)%nat = Some (uchar4.w px).
Proof.
  rewrite load_uchar4_Some.
  replace (Z.to_nat (4 * Z.of_nat i)) with (4 * i)%nat by lia.
  split; [by intros (_ & ?) | intros; split; [lia | done]].
Qed.

Lemma gray_pixel_x (px : uchar4.t) : uchar4.x (gray_pixel px) = grayscale px.
Proof. unfold gray_pixel. reflexivity. Qed.

Lemma gray_pixel_y (px : uchar4.t) : uchar4.y (gray_pixel px) = grayscale px.
Proof. unfold gray_pixel. reflexivity. Qed.

Lemma gray_pixel_z (px : uchar4.t) : uchar4.z (gray_pixel px) = grayscale px.
Proof. unfold gray_pixel. reflexivity. Qed.

Lemma gray_pixel_w (px : uchar4.t) : uchar4.w (gray_pixel px) = uchar4.w px.
Proof. unfold gray_pixel. reflexivity. Qed.

(** A pixel with equal color channels is its own gray pixel. *)
Lemma gray_pixel_fixed (v a : uchar) :
  gray_pixel (uchar4.mk v v v a) = uchar4.mk v v v a.
Proof.
  unfold gray_pixel. simpl.
  assert (grayscale (uchar4.mk v v v a) = v) as ->; [|done].
  apply uchar_to_int_inj. rewrite grayscale_value. simpl.
  pose proof (uchar_to_int_range v).
  rewrite Z.quot_div_nonneg by lia.
  symmetry. apply (Z.div_unique _ 3 _ 0); lia.
Qed.

(** ** The transform in closed form *)

Lemma lookup_cons4 {A : Type} (a b c d : A) (l : list A) (i k : nat) :
  (a :: b :: c :: d :: l) !! (4 * S i + k)%nat = l !! (4 * i + k)%nat.
Proof. replace (4 * S i + k)%nat with (S (S (S (S (4 * i + k))))) by lia. done. Qed.

Lemma load_uchar4_gray_RGBA (i : nat) (l : list uchar) (px : uchar4.t) :
  load_uchar4 l (Z.of_nat i) = Some px →
  load_uchar4 (gray_RGBA l) (Z.of_nat i) = Some (gray_pixel px).
Proof.
  revert l. induction i as [|i IH]; intros l Hpx.
  - apply load_uchar4_bytes in Hpx as (Hr & Hg & Hb & Ha).
    destruct px as [pr pg pb pa]. cbn [uchar4.x uchar4.y uchar4.z uchar4.w] in *.
    destruct l as [|r [|g [|b [|a rest]]]]; try done.
    cbn in Hr, Hg, Hb, Ha. simplify_eq.
    apply load_uchar4_bytes.
    rewrite gray_pixel_x, gray_pixel_y, gray_pixel_z, gray_pixel_w.
    cbn [gray_RGBA uchar4.w]. repeat split.
  - apply load_uchar4_bytes in Hpx as (Hr & Hg & Hb & Ha).
    pose proof (lookup_lt_Some _ _ _ Ha) as Hlen.
    destruct l as [|r [|g [|b [|a rest]]]]; simpl in Hlen; try lia.
    rewrite <- (Nat.add_0_r (4 * S i)) in Hr.
    rewrite lookup_cons4 in Hr, Hg, Hb, Ha. rewrite Nat.add_0_r in Hr.
    assert (load_uchar4 rest (Z.of_nat i) = Some px) as Hrest
      by (by apply load_uchar4_bytes).
    apply IH, load_uchar4_bytes in Hrest as (Hr' & Hg' & Hb' & Ha').
    apply load_uchar4_bytes. cbn [gray_RGBA].
    rewrite <- (Nat.add_0_r (4 * S i)) at 1.
    rewrite !lookup_cons4. rewrite Nat.add_0_r.
    split; [exact Hr'|]. split; [exact Hg'|]. split; [exact Hb' | exact Ha'].
Qed.

Lemma length_gray_RGBA (n : nat) (l : list uchar) :
  length l = (4 * n)%nat → length (gray_RGBA l) = length l.
Proof.
  revert l. induction n as [|n IH]; intros l Hl.
  - by destruct l.
  - destruct l as [|r [|g [|b [|a rest]]]]; simpl in Hl; try lia.
    cbn [gray_RGBA length]. rewrite (IH rest) by lia. reflexivity.
Qed.

Lemma length_BGR2RGBA (n : nat) (d : list uchar) :
  length d = (3 * n)%nat → length (BGR2RGBA d) = (4 * n)%nat.
Proof.
  revert d. induction n as [|n IH]; intros d Hd.
  - by destruct d.
  - destruct d as [|b [|g [|r rest]]]; simpl in Hd; try lia.
    cbn [BGR2RGBA length]. rewrite (IH rest) by lia. lia.
Qed.

Lemma RGBA2BGR_gray_RGBA_BGR2RGBA (n : nat) (d : list uchar) :
  length d = (3 * n)%nat → RGBA2BGR (gray_RGBA (BGR2RGBA d)) = gray_BGR d.
Proof.
  revert d. induction n as [|n IH]; intros d Hd.
  - by destruct d.
  - destruct d as [|b [|g [|r rest]]]; simpl in Hd; try lia.
    cbn [BGR2RGBA gray_RGBA RGBA2BGR gray_BGR]. rewrite (IH rest) by lia.
    reflexivity.
Qed.

(** On an image of at most [2^31] pixels the dispatch of [main] leaves the
    gray bytes of the input in the output buffer, whatever the schedule and
    whatever the output buffer held. *)
Lemma dispatch_gray_RGBA (W H : Z) (sched : list (Z * Z)) (inp junk : list uchar) :
  1 ≤ W → W * H ≤ 2 ^ 31 →
  Z.of_nat (length inp) = 4 * W * H → Z.of_nat (length junk) = 4 * W * H →
  is_schedule W H sched →
  dispatch 1%nat 2%nat W H sched (<[2%nat := junk]> (<[1%nat := inp]> ∅))
  = Some (<[2%nat := gray_RGBA inp]> (<[1%nat := inp]> ∅)).
Proof.
  intros HW Hsz Hli Hlj Hsched.
  destruct (dispatch_grid W H sched inp junk) as (out & Hrun & Hlen & Hpix);
    [done..|].
  rewrite Hrun. do 2 f_equal.
  assert (length (gray_RGBA inp) = length inp) as Hlg
    by (apply (length_gray_RGBA (Z.to_nat (W * H))); lia).
  apply (buffer_eq_pixels (W * H)); [lia | congruence |].
  intros i Hi. destruct (Hpix i Hi) as (px & Hin & Hout).
  exists (gray_pixel px). split; [done|].
  rewrite <- (Z2Nat.id i) by lia. apply load_uchar4_gray_RGBA.
  by rewrite Z2Nat.id by lia.
Qed.

Lemma transform_gray_RGBA (W H : Z) (sched : list (Z * Z)) (inp junk : list uchar) :
  1 ≤ W → W * H ≤ 2 ^ 31 →
  Z.of_nat (length inp) = 4 * W * H → Z.of_nat (length junk) = 4 * W * H →
  is_schedule W H sched →
  transform W H sched inp junk = Some (gray_RGBA inp).
Proof.
  intros HW Hsz Hli Hlj Hsched. apply transform_Some. eexists. split.
  - by apply dispatch_gray_RGBA.
  - by rewrite lookup_insert_eq.
Qed.

(** The size [main] computes for the buffers does not wrap. *)
Lemma buffer_size (W H : Z) :
  1 ≤ W → 1 ≤ H → W * H ≤ 2 ^ 31 →
  size_t_mul (size_t_mul (size_t_mul 1 4) W) H = 4 * W * H ∧ size_t W = W
  ∧ size_t H = H.
Proof.
  intros HW HH Hsz. unfold size_t_mul, size_t.
  assert (W ≤ 2 ^ 31 ∧ H ≤ 2 ^ 31) as [? ?] by nia.
  rewrite (Z.mod_small (1 * 4)) by lia.
  rewrite (Z.mod_small (1 * 4 * W)) by lia.
  rewrite (Z.mod_small (1 * 4 * W * H)) by nia.
  rewrite !Z.mod_small by lia. lia.
Qed.

(** * Properties of [main] *)

Lemma setarg_check (a0 a1 a2 a3 : Z) :
  Z.lor (Z.lor (Z.lor a0 a1) a2) a3 ≠ CL_SUCCESS ↔
  a0 ≠ CL_SUCCESS ∨ a1 ≠ CL_SUCCESS ∨ a2 ≠ CL_SUCCESS ∨ a3 ≠ CL_SUCCESS.
Proof. unfold CL_SUCCESS. rewrite !Z.lor_eq_0_iff. lia. Qed.

(** Every run of [main] ends in one of twelve ways: through the [return 1]
    of the first check that fails, or through [return 0]. *)
Lemma run_outcome (e : environment) (fs : gmap string Mat) :
  run_post e fs (first_failure e fs) (run e fs).
Proof.
  unfold first_failure.
  rewrite <- (bool_decide_ext _ _ (setarg_check _ _ _ _)).
  run_to_check. fold input_path.
  destruct (Mat_empty _); cbv beta iota; run_to_check; [run_ended|].
  check (st_clGetPlatformIDs e ≠ CL_SUCCESS).
  check (st_clGetDeviceIDs e ≠ CL_SUCCESS).
  check (st_clCreateContext e ≠ CL_SUCCESS).
  check (st_clCreateCommandQueueWithProperties e ≠ CL_SUCCESS).
  check (st_clCreateProgramWithSource e ≠ CL_SUCCESS).
  check (st_clBuildProgram e ≠ CL_SUCCESS).
  check (st_clCreateKernel e ≠ CL_SUCCESS).
  unchecked (st_clCreateBuffer_input e ≠ CL_SUCCESS);
    unchecked (st_clCreateBuffer_output e ≠ CL_SUCCESS);
    (match goal with
     | |- context [bool_decide (Z.lor ?a ?b ≠ CL_SUCCESS)] =>
         check (Z.lor a b ≠ CL_SUCCESS)
     end);
    check (st_clEnqueueNDRangeKernel e ≠ CL_SUCCESS);
    check (st_clEnqueueReadBuffer e ≠ CL_SUCCESS);
    run_ended.
Qed.

(** ** The dispatch [main] enqueues *)

(** Past [2 ^ 31] pixels a dispatch over the whole range faults, whatever
    the two buffers hold. *)
Lemma dispatch_overflow (inputImage outputImage : nat) (W H : Z)
    (sched : list (Z * Z)) (m : gmap nat (list uchar)) (inbuf outbuf : list uchar) :
  inputImage ≠ outputImage →
  m !! inputImage = Some inbuf → m !! outputImage = Some outbuf →
  1 ≤ W → 2 ^ 31 < W * H → is_schedule W H sched →
  dispatch inputImage outputImage W H sched m = None.
Proof.
  intros Hne Hin Hout HW Hbig Hsched.
  destruct (dispatch inputImage outputImage W H sched m) as [m'|] eqn:Hrun;
    [exfalso|done].
  destruct (grid_overflow W H) as (gid & Hgid & Hneg); [lia..|].
  rewrite <- Hsched in Hgid.
  destruct (dispatch_Some_in_range inputImage outputImage W H sched m m'
              inbuf outbuf Hne Hin Hout Hrun gid Hgid) as (H0 & _).
  lia.
Qed.

(** Up to [2 ^ 31] pixels a dispatch over the whole range and over buffers
    of at least [4 * W * H] bytes completes, and changes the output buffer
    only. *)
Lemma dispatch_whole_range (inputImage outputImage : nat) (W H : Z)
    (sched : list (Z * Z)) (m : gmap nat (list uchar)) (inbuf outbuf : list uchar) :
  inputImage ≠ outputImage →
  m !! inputImage = Some inbuf → m !! outputImage = Some outbuf →
  W * H ≤ 2 ^ 31 →
  4 * W * H ≤ Z.of_nat (length inbuf) → 4 * W * H ≤ Z.of_nat (length outbuf) →
  is_schedule W H sched →
  ∃ outbuf',
    dispatch inputImage outputImage W H sched m
    = Some (<[outputImage := outbuf']> m).
Proof.
  intros Hne Hin Hout Hsz Hli Hlo Hsched.
  destruct (dispatch_in_range inputImage outputImage W H sched m inbuf outbuf)
    as (outbuf' & Hrun & _); [done..| |by exists outbuf'].
  intros [x y] Hgid. rewrite Hsched in Hgid.
  destruct (pixel_index_grid W H x y Hsz Hgid) as [-> Hr]. lia.
Qed.

Lemma size_t_small (v : Z) : 0 ≤ v < 2 ^ 64 → size_t v = v.
Proof. intros Hv. unfold size_t. by apply Z.mod_small. Qed.

Lemma length_black_65536_32769 :
  Z.of_nat (length black_65536_32769) = 4 * 65536 * 32769.
Proof. unfold black_65536_32769. rewrite length_replicate. apply Z2Nat.id. lia. Qed.

Lemma length_white_65536_32769 :
  Z.of_nat (length white_65536_32769) = 4 * 65536 * 32769.
Proof. unfold white_65536_32769. rewrite length_replicate. apply Z2Nat.id. lia. Qed.

(** What [clEnqueueNDRangeKernel] leaves of the device memory when the range
    has more than [2 ^ 31] work-items. *)
Lemma clEnqueueNDRangeKernel_overflow (e : environment)
    (inputBuffer outputBuffer : nat) (W H : Z) (w : world)
    (inbuf outbuf : list uchar) :
  st_clEnqueueNDRangeKernel e = CL_SUCCESS →
  inputBuffer ≠ outputBuffer →
  device w !! inputBuffer = Some inbuf → device w !! outputBuffer = Some outbuf →
  1 ≤ W → 2 ^ 31 < W * H → is_schedule W H (schedule e (grid W H)) →
  clEnqueueNDRangeKernel e inputBuffer outputBuffer W H (W, H) w
  = (Next CL_SUCCESS, set_device (λ _, faulted_device e) w).
Proof.
  intros Hst Hne Hin Hout HW Hbig Hsched. unfold clEnqueueNDRangeKernel.
  rewrite Hst. rewrite bool_decide_eq_false_2 by (by intros ?).
  cbn [fst snd]. unfold set_device.
  by rewrite (dispatch_overflow _ _ _ _ _ _ inbuf outbuf).
Qed.

(** A blocking read of a whole buffer that succeeds. *)
Lemma clEnqueueReadBuffer_whole (e : environment) (buffer : nat) (size : Z)
    (dst : Mat) (w : world) (buf : list uchar) :
  st_clEnqueueReadBuffer e = CL_SUCCESS →
  device w !! buffer = Some buf → Z.of_nat (length buf) ≤ size →
  clEnqueueReadBuffer e buffer size dst w
  = (Next (mkMat (rows dst) (cols dst) (channels dst) buf, CL_SUCCESS), w).
Proof.
  intros Hst Hbuf Hlen. unfold clEnqueueReadBuffer.
  rewrite Hst, Hbuf. rewrite bool_decide_eq_false_2 by (by intros ?).
  change (?f <$> Some ?x) with (Some (f x)).
  change (default ?a (Some ?x)) with x.
  rewrite take_ge by lia. reflexivity.
Qed.

(** * The claims about the kernel *)

(** The scenarios S1 to S4 of the specification. *)
Example S1_single_pixel :
  transform 1 1 (grid 1 1) (bytes [90; 150; 210; 255]) (bytes [7; 7; 7; 7])
  = Some (bytes [150; 150; 150; 255]).
Proof. vm_compute. reflexivity. Qed.

Example S2_truncation :
  transform 1 1 (grid 1 1) (bytes [0; 0; 1; 128]) (bytes [7; 7; 7; 7])
  = Some (bytes [0; 0; 0; 128]).
Proof. vm_compute. reflexivity. Qed.

Example S3_saturation_free_max :
  transform 1 1 (grid 1 1) (bytes [255; 255; 255; 0]) (bytes [7; 7; 7; 7])
  = Some (bytes [255; 255; 255; 0]).
Proof. vm_compute. reflexivity. Qed.

Example S4_two_pixel_row :
  transform 2 1 (grid 2 1) (bytes [30; 60; 90; 255; 255; 0; 0; 10])
            (bytes [1; 2; 3; 4; 5; 6; 7; 8])
  = Some (bytes [60; 60; 60; 255; 85; 85; 85; 10]).
Proof. vm_compute. reflexivity. Qed.

(** C1, as amended. For every width [W >= 1] and height [H >= 1] with
    [W * H <= 2^31], so that every pixel index [y * W + x] fits the kernel's
    [int], every input buffer of [4 * W * H] bytes, every output buffer of as
    many bytes whatever it holds, and every order in which the device runs
    the work-items: the transform produces an output buffer of the length of
    the input in which, for every pixel [i], the three color bytes equal
    [(in[4i] + in[4i+1] + in[4i+2]) / 3], the quotient truncated toward zero,
    and the alpha byte is [in[4i+3]]. *)
Theorem transform_grayscale (W H : Z) (sched : list (Z * Z))
    (inp junk : list uchar) :
  1 ≤ W → 1 ≤ H → W * H ≤ 2 ^ 31 →
  Z.of_nat (length inp) = 4 * W * H →
  Z.of_nat (length junk) = 4 * W * H →
  is_schedule W H sched →
  ∃ out,
    transform W H sched inp junk = Some out
    ∧ length out = length inp
    ∧ ∀ i : nat, Z.of_nat i < W * H →
        ∃ r g b a v,
          inp !! (4 * i)%nat = Some r
          ∧ inp !! (4 * i + 1)%nat = Some g
          ∧ inp !! (4 * i + 2)%nat = Some b
          ∧ inp !! (4 * i + 3)%nat = Some a
          ∧ uchar_to_int v = (uchar_to_int r + uchar_to_int g + uchar_to_int b) ÷ 3
          ∧ out !! (4 * i)%nat = Some v
          ∧ out !! (4 * i + 1)%nat = Some v
          ∧ out !! (4 * i + 2)%nat = Some v
          ∧ out !! (4 * i + 3)%nat = Some a.
Proof.
  intros HW HH Hsz Hli Hlj Hsched.
  destruct (transform_pixels W H sched inp junk) as (out & Ht & Hlen & Hpix);
    [done..|].
  exists out. split_and!; [done..|].
  intros i Hi. destruct (Hpix (Z.of_nat i)) as (px & Hin & Hout); [lia|].
  apply load_uchar4_bytes in Hin as (Hr & Hg & Hb & Ha).
  apply load_uchar4_bytes in Hout as (Hr' & Hg' & Hb' & Ha').
  rewrite gray_pixel_x in Hr'. rewrite gray_pixel_y in Hg'.
  rewrite gray_pixel_z in Hb'. rewrite gray_pixel_w in Ha'.
  exists (uchar4.x px), (uchar4.y px), (uchar4.z px), (uchar4.w px), (grayscale px).
  split; [exact Hr|]. split; [exact Hg|]. split; [exact Hb|]. split; [exact Ha|].
  split; [apply grayscale_value|].
  split; [exact Hr'|]. split; [exact Hg'|]. split; [exact Hb'|]. exact Ha'.
Qed.

(** An instance: the two-pixel row of scenario S4, the second work-item run
    first. *)
Lemma transform_grayscale_witness :
  ∃ out,
    transform 2 1 [(1, 0); (0, 0)] (bytes [30; 60; 90; 255; 255; 0; 0; 10])
              (bytes [1; 2; 3; 4; 5; 6; 7; 8]) = Some out
    ∧ out = bytes [60; 60; 60; 255; 85; 85; 85; 10].
Proof.
  destruct (transform_grayscale 2 1 [(1, 0); (0, 0)]
              (bytes [30; 60; 90; 255; 255; 0; 0; 10])
              (bytes [1; 2; 3; 4; 5; 6; 7; 8]))
    as (out & Ht & _); [lia | lia | lia | reflexivity | reflexivity | |].
  - unfold is_schedule. change (grid 2 1) with [(0, 0); (1, 0)]. apply perm_swap.
  - exists out. split; [exact Ht|].
    vm_compute in Ht. injection Ht as <-. vm_compute. reflexivity.
Defined.

(** C1 as stated fails on images of more than [2^31] pixels: at width
    65536 and height 32769 the work-item [(0, 32768)] computes the index
    [2^31], which as an [int] is negative, and the transform of a buffer of
    the stated length has no defined output. *)
Lemma transform_undefined_65536_32769 :
  1 ≤ 65536 ∧ 1 ≤ 32769
  ∧ Z.of_nat (length black_65536_32769) = 4 * 65536 * 32769
  ∧ is_schedule 65536 32769 (grid 65536 32769)
  ∧ (0, 32768) ∈ grid 65536 32769
  ∧ pixel_index 65536 (0, 32768) = - 2 ^ 31
  ∧ transform 65536 32769 (grid 65536 32769)
      black_65536_32769 black_65536_32769 = None.
Proof.
  split; [lia|]. split; [lia|]. split.
  { unfold black_65536_32769. rewrite length_replicate. apply Z2Nat.id. lia. }
  split; [unfold is_schedule; reflexivity|].
  split; [apply elem_of_grid; lia|]. split.
  { rewrite pixel_index_wrap. reflexivity. }
  apply transform_overflow; [lia | lia | unfold is_schedule; reflexivity].
Qed.

(** C5, as amended. On an image of at most [2^31] pixels in which every
    pixel has [R = G = B], the transform returns the input bytes, alpha
    included: whatever the output buffer held and whatever the order of the
    work-items. *)
Theorem transform_idempotent_on_gray (W H : Z) (sched : list (Z * Z))
    (inp junk : list uchar) :
  1 ≤ W → 1 ≤ H → W * H ≤ 2 ^ 31 →
  Z.of_nat (length inp) = 4 * W * H →
  Z.of_nat (length junk) = 4 * W * H →
  is_schedule W H sched →
  (∀ i : nat, Z.of_nat i < W * H →
     ∃ v, inp !! (4 * i)%nat = Some v
          ∧ inp !! (4 * i + 1)%nat = Some v
          ∧ inp !! (4 * i + 2)%nat = Some v) →
  transform W H sched inp junk = Some inp.
Proof.
  intros HW HH Hsz Hli Hlj Hsched Hgray.
  destruct (transform_pixels W H sched inp junk) as (out & Ht & Hlen & Hpix);
    [done..|].
  rewrite Ht. f_equal. symmetry.
  apply (buffer_eq_pixels (W * H)); [lia | done |].
  intros i Hi. destruct (Hpix i Hi) as (px & Hin & Hout).
  exists px. split; [done|]. rewrite Hout. f_equal.
  destruct (Hgray (Z.to_nat i)) as (v & Hr & Hg & Hb); [lia|].
  rewrite <- (Z2Nat.id i) in Hin by lia.
  apply load_uchar4_bytes in Hin as (Hr' & Hg' & Hb' & _).
  destruct px as [r g b a]. cbn [uchar4.x uchar4.y uchar4.z] in Hr', Hg', Hb'.
  assert (r = v) as -> by congruence.
  assert (g = v) as -> by congruence.
  assert (b = v) as -> by congruence.
  apply gray_pixel_fixed.
Qed.

(** An instance: a row of two gray pixels, the second work-item run first. *)
Lemma transform_idempotent_on_gray_witness :
  transform 2 1 [(1, 0); (0, 0)] (bytes [60; 60; 60; 255; 85; 85; 85; 10])
            (bytes [1; 2; 3; 4; 5; 6; 7; 8])
  = Some (bytes [60; 60; 60; 255; 85; 85; 85; 10]).
Proof.
  apply transform_idempotent_on_gray; [lia | lia | lia | reflexivity | reflexivity | |].
  - unfold is_schedule. change (grid 2 1) with [(0, 0); (1, 0)]. apply perm_swap.
  - intros [|[|i]] Hi; [| |lia].
    + exists (int_to_uchar 60). repeat split.
    + exists (int_to_uchar 85). repeat split.
Defined.

(** C5 as stated fails on gray images of more than [2^31] pixels: at
    46341 x 46341 the work-item [(41708, 46340)] computes the index [2^31],
    which as an [int] is negative, and the transform returns no buffer. *)
Lemma transform_gray_undefined_46341_46341 :
  Z.of_nat (length gray_46341_46341) = 4 * 46341 * 46341
  ∧ (∀ i : nat, Z.of_nat i < 46341 * 46341 →
       gray_46341_46341 !! (4 * i)%nat = Some Byte.x80
       ∧ gray_46341_46341 !! (4 * i + 1)%nat = Some Byte.x80
       ∧ gray_46341_46341 !! (4 * i + 2)%nat = Some Byte.x80)
  ∧ is_schedule 46341 46341 (grid 46341 46341)
  ∧ (41708, 46340) ∈ grid 46341 46341
  ∧ pixel_index 46341 (41708, 46340) = - 2 ^ 31
  ∧ transform 46341 46341 (grid 46341 46341)
      gray_46341_46341 gray_46341_46341 = None.
Proof.
  split.
  { unfold gray_46341_46341. rewrite length_replicate. apply Z2Nat.id. lia. }
  split.
  { intros i Hi. unfold gray_46341_46341.
    split_and!; apply lookup_replicate_2; lia. }
  split; [unfold is_schedule; reflexivity|].
  split; [apply elem_of_grid; lia|]. split.
  { rewrite pixel_index_wrap. reflexivity. }
  apply transform_overflow; [lia | lia | unfold is_schedule; reflexivity].
Qed.

(** C6, as amended. On an image of [W] x [H] pixels with [W * H <= 2^31],
    two runs of the transform on the same input bytes, each with its own
    order of the work-items and its own initial contents of the output
    buffer, both read back a buffer, and the two buffers are
    byte-identical. *)
Theorem transform_deterministic (W H : Z) (sched1 sched2 : list (Z * Z))
    (inp junk1 junk2 : list uchar) :
  1 ≤ W → 1 ≤ H → W * H ≤ 2 ^ 31 →
  Z.of_nat (length inp) = 4 * W * H →
  Z.of_nat (length junk1) = 4 * W * H →
  Z.of_nat (length junk2) = 4 * W * H →
  is_schedule W H sched1 → is_schedule W H sched2 →
  ∃ out, transform W H sched1 inp junk1 = Some out
         ∧ transform W H sched2 inp junk2 = Some out.
Proof.
  intros HW HH Hsz Hli Hl1 Hl2 Hs1 Hs2. exists (gray_RGBA inp).
  split; by apply transform_gray_RGBA.
Qed.

(** The two runs of this instance differ in the order of the two
    work-items and in what the output buffer held. *)
Lemma transform_deterministic_witness :
  ∃ out,
    transform 2 1 [(0, 0); (1, 0)] (bytes [30; 60; 90; 255; 255; 0; 0; 10])
              (bytes [1; 2; 3; 4; 5; 6; 7; 8]) = Some out
    ∧ transform 2 1 [(1, 0); (0, 0)] (bytes [30; 60; 90; 255; 255; 0; 0; 10])
                (bytes [9; 9; 9; 9; 9; 9; 9; 9]) = Some out.
Proof.
  apply (transform_deterministic 2 1 [(0, 0); (1, 0)] [(1, 0); (0, 0)]
           (bytes [30; 60; 90; 255; 255; 0; 0; 10])
           (bytes [1; 2; 3; 4; 5; 6; 7; 8]) (bytes [9; 9; 9; 9; 9; 9; 9; 9]));
    [lia | lia | lia | reflexivity | reflexivity | reflexivity | |].
  - unfold is_schedule. reflexivity.
  - unfold is_schedule. change (grid 2 1) with [(0, 0); (1, 0)]. apply perm_swap.
Defined.

(** C6 as stated fails on images of more than [2^31] pixels. At width 65536
    and height 32769 the index of a work-item passes the greatest [int]: the
    accesses leave the buffers and neither of two runs has a defined
    readback. What [clEnqueueReadBuffer] then reads is what the faulted
    device is left with: on the same input bytes one driver reads back zeros
    and another reads back bytes of 255. *)
Lemma readback_undetermined_65536_32769 :
  Z.of_nat (length black_65536_32769) = 4 * 65536 * 32769
  ∧ Z.of_nat (length white_65536_32769) = 4 * 65536 * 32769
  ∧ is_schedule 65536 32769 (grid 65536 32769)
  ∧ is_schedule 65536 32769 (reverse (grid 65536 32769))
  ∧ transform 65536 32769 (grid 65536 32769)
      black_65536_32769 black_65536_32769 = None
  ∧ transform 65536 32769 (reverse (grid 65536 32769))
      black_65536_32769 white_65536_32769 = None
  ∧ (_ ← clEnqueueNDRangeKernel fault_unseen 1 2 65536 32769 (65536, 32769);
     clEnqueueReadBuffer fault_unseen 2 (4 * 65536 * 32769)
       (mkMat 32769 65536 4 black_65536_32769)) world_65536_32769
    = (Next (mkMat 32769 65536 4 black_65536_32769, CL_SUCCESS),
       world_65536_32769)
  ∧ ((_ ← clEnqueueNDRangeKernel fault_wild 1 2 65536 32769 (65536, 32769);
      clEnqueueReadBuffer fault_wild 2 (4 * 65536 * 32769)
        (mkMat 32769 65536 4 black_65536_32769)) world_65536_32769).1
    = Next (mkMat 32769 65536 4 white_65536_32769, CL_SUCCESS)
  ∧ black_65536_32769 !! 0%nat = Some Byte.x00
  ∧ white_65536_32769 !! 0%nat = Some Byte.xff.
Proof.
  split; [exact length_black_65536_32769|].
  split; [exact length_white_65536_32769|].
  split; [unfold is_schedule; reflexivity|].
  split; [unfold is_schedule; apply reverse_Permutation|].
  split; [apply transform_overflow;
          [lia | lia | unfold is_schedule; reflexivity]|].
  split; [apply transform_overflow;
          [lia | lia | unfold is_schedule; apply reverse_Permutation]|].
  pose proof length_black_65536_32769 as Hlb.
  pose proof length_white_65536_32769 as Hlw.
  split; [|split; [|split]].
  - unfold mbind, prog_bind.
    rewrite (clEnqueueNDRangeKernel_overflow fault_unseen 1 2 65536 32769
               world_65536_32769 black_65536_32769 black_65536_32769);
      [|reflexivity | lia | reflexivity | reflexivity | lia | lia
       |unfold is_schedule; reflexivity].
    rewrite (clEnqueueReadBuffer_whole fault_unseen 2 _ _ _ black_65536_32769);
      [reflexivity | reflexivity | reflexivity | lia].
  - unfold mbind, prog_bind.
    rewrite (clEnqueueNDRangeKernel_overflow fault_wild 1 2 65536 32769
               world_65536_32769 black_65536_32769 black_65536_32769);
      [|reflexivity | lia | reflexivity | reflexivity | lia | lia
       |unfold is_schedule; reflexivity].
    rewrite (clEnqueueReadBuffer_whole fault_wild 2 _ _ _ white_65536_32769);
      [reflexivity | reflexivity | reflexivity | lia].
  - unfold black_65536_32769. apply lookup_replicate_2. lia.
  - unfold white_65536_32769. apply lookup_replicate_2. lia.
Qed.

(** C8. For every input pixel the sum [R + G + B] of the promoted channels
    is at most 765 and the [int] additions do not wrap; the [int] quotient by
    3 is the truncated quotient and lies between 0 and 255; and the [uchar]
    that is stored holds that quotient unchanged. *)
Theorem grayscale_no_overflow (px : uchar4.t) :
  let r := uchar_to_int (uchar4.x px) in
  let g := uchar_to_int (uchar4.y px) in
  let b := uchar_to_int (uchar4.z px) in
  0 ≤ r + g + b ≤ 765
  ∧ int_add (int_add r g) b = r + g + b
  ∧ int_div (int_add (int_add r g) b) 3 = (r + g + b) ÷ 3
  ∧ 0 ≤ (r + g + b) ÷ 3 ≤ 255
  ∧ ((r + g + b) ÷ 3) mod 256 = (r + g + b) ÷ 3
  ∧ uchar_to_int (grayscale px) = (r + g + b) ÷ 3.
Proof.
  intros r g b.
  pose proof (uchar_to_int_range (uchar4.x px)).
  pose proof (uchar_to_int_range (uchar4.y px)).
  pose proof (uchar_to_int_range (uchar4.z px)).
  assert (0 ≤ (r + g + b) ÷ 3 ≤ 255) as Hq.
  { rewrite Z.quot_div_nonneg by lia.
    split; [apply Z.div_pos; lia | apply Z.div_le_upper_bound; lia]. }
  assert (int_add (int_add r g) b = r + g + b) as Hsum.
  { unfold int_add. rewrite (wrap_int_small (r + g)) by lia.
    apply wrap_int_small. lia. }
  split; [lia|]. split; [exact Hsum|]. split.
  { rewrite Hsum. unfold int_div. apply wrap_int_small. lia. }
  split; [exact Hq|]. split; [apply Z.mod_small; lia|].
  apply grayscale_value.
Qed.

(** C10, as amended. On an image of [W] x [H] pixels with
    [W * H <= 2^31] and two distinct buffers of at least [4 * W * H] bytes,
    the dispatch that [main] enqueues leaves the input buffer, and every
    buffer other than the output buffer, with the bytes it had before:
    whatever the order of the work-items, whatever the buffers hold, and
    whether [clEnqueueNDRangeKernel] reports success or not. And no run of
    [main] changes the input file. *)
Theorem dispatch_preserves_input (e : environment) (fs : gmap string Mat)
    (inputBuffer outputBuffer : nat) (W H : Z) (w : world)
    (inbuf outbuf : list uchar) :
  inputBuffer ≠ outputBuffer →
  device w !! inputBuffer = Some inbuf → device w !! outputBuffer = Some outbuf →
  1 ≤ W → 1 ≤ H → W * H ≤ 2 ^ 31 →
  4 * W * H ≤ Z.of_nat (length inbuf) → 4 * W * H ≤ Z.of_nat (length outbuf) →
  (∀ l, schedule e l ≡ₚ l) →
  device (clEnqueueNDRangeKernel e inputBuffer outputBuffer W H
            (size_t W, size_t H) w).2 !! inputBuffer = Some inbuf
  ∧ (∀ h, h ≠ outputBuffer →
       device (clEnqueueNDRangeKernel e inputBuffer outputBuffer W H
                 (size_t W, size_t H) w).2 !! h = device w !! h)
  ∧ files (run e fs).2 !! input_path = fs !! input_path.
Proof.
  intros Hne Hin Hout HW HH Hsz Hli Hlo Hsched.
  assert (∀ h, h ≠ outputBuffer →
            device (clEnqueueNDRangeKernel e inputBuffer outputBuffer W H
                      (size_t W, size_t H) w).2 !! h = device w !! h) as Hframe.
  { intros h Hh. unfold clEnqueueNDRangeKernel.
    destruct (bool_decide (st_clEnqueueNDRangeKernel e ≠ CL_SUCCESS)); [done|].
    cbn [fst snd]. rewrite !size_t_small by nia. unfold set_device.
    cbn [device].
    destruct (dispatch_whole_range inputBuffer outputBuffer W H
                (schedule e (grid W H)) (device w) inbuf outbuf)
      as (outbuf' & ->); [done..| |].
    { unfold is_schedule. apply Hsched. }
    change (default ?a (Some ?x)) with x. by rewrite lookup_insert_ne. }
  split; [by rewrite Hframe|]. split; [exact Hframe|].
  pose proof (run_outcome e fs) as Hrun.
  destruct (first_failure e fs) as [s|].
  - destruct Hrun as (bufs & dev & ->). done.
  - destruct Hrun as (img & acq & rel & dev & ->). cbn [snd files].
    destruct (imwrite_ok e); [|done]. by rewrite lookup_insert_ne.
Qed.

(** An instance: the dispatch of scenario S4, and the run on the disk that
    holds the two-pixel image. *)
Lemma dispatch_preserves_input_witness :
  device (clEnqueueNDRangeKernel driver_ok 1 2 2 1 (size_t 2, size_t 1)
            (mkWorld (mkStreams to_devnull to_devnull [] [] []) disk
               [Context; CommandQueue; Program; Kernel; InputBuffer; OutputBuffer]
               []
               (<[2%nat := bytes [1; 2; 3; 4; 5; 6; 7; 8]]>
                  (<[1%nat := bytes [30; 60; 90; 255; 255; 0; 0; 10]]> ∅)))).2
    !! 1%nat
  = Some (bytes [30; 60; 90; 255; 255; 0; 0; 10])
  ∧ files (run driver_ok disk).2 !! input_path = Some two_pixels.
Proof.
  destruct (dispatch_preserves_input driver_ok disk 1 2 2 1
              (mkWorld (mkStreams to_devnull to_devnull [] [] []) disk
                 [Context; CommandQueue; Program; Kernel; InputBuffer; OutputBuffer]
                 []
                 (<[2%nat := bytes [1; 2; 3; 4; 5; 6; 7; 8]]>
                    (<[1%nat := bytes [30; 60; 90; 255; 255; 0; 0; 10]]> ∅)))
              (bytes [30; 60; 90; 255; 255; 0; 0; 10])
              (bytes [1; 2; 3; 4; 5; 6; 7; 8]))
    as (Hin & _ & Hfile);
    [lia | reflexivity | reflexivity | lia | lia | lia
    | vm_compute; discriminate | vm_compute; discriminate
    | intros l; reflexivity |].
  split; [exact Hin|]. rewrite Hfile. reflexivity.
Defined.

(** C10 as stated fails on images of more than [2^31] pixels. At width
    65536 and height 32769 the work-item [(0, 32768)] computes the index
    [2^31], which as an [int] is negative: the dispatch faults, and the
    memory of the device is what the fault left of it. With a driver that
    leaves bytes of 255 there, the input buffer no longer holds the bytes it
    had. *)
Lemma input_buffer_overwritten_65536_32769 :
  device world_65536_32769 !! 1%nat = Some black_65536_32769
  ∧ device world_65536_32769 !! 2%nat = Some black_65536_32769
  ∧ Z.of_nat (length black_65536_32769) = 4 * 65536 * 32769
  ∧ (0, 32768) ∈ grid 65536 32769
  ∧ pixel_index 65536 (0, 32768) = - 2 ^ 31
  ∧ dispatch 1 2 65536 32769 (grid 65536 32769) (device world_65536_32769)
    = None
  ∧ device (clEnqueueNDRangeKernel fault_wild 1 2 65536 32769
              (size_t 65536, size_t 32769) world_65536_32769).2 !! 1%nat
    = Some white_65536_32769
  ∧ black_65536_32769 !! 0%nat = Some Byte.x00
  ∧ white_65536_32769 !! 0%nat = Some Byte.xff.
Proof.
  split; [reflexivity|]. split; [reflexivity|].
  split; [exact length_black_65536_32769|].
  split; [apply elem_of_grid; lia|].
  split; [rewrite pixel_index_wrap; reflexivity|].
  split.
  { apply (dispatch_overflow 1 2 65536 32769 _ _
             black_65536_32769 black_65536_32769);
      [lia | reflexivity | reflexivity | lia | lia
      | unfold is_schedule; reflexivity]. }
  split.
  { rewrite !size_t_small by lia.
    rewrite (clEnqueueNDRangeKernel_overflow fault_wild 1 2 65536 32769
               world_65536_32769 black_65536_32769 black_65536_32769);
      [|reflexivity | lia | reflexivity | reflexivity | lia | lia
       |unfold is_schedule; reflexivity].
    reflexivity. }
  split.
  - unfold black_65536_32769. apply lookup_replicate_2. lia.
  - unfold white_65536_32769. apply lookup_replicate_2. lia.
Qed.

(** * The claims about [main] *)

(** The scenario S4 through the whole program, the image stored as BGR: the
    output file holds the gray image and the process exits with 0. *)
Example run_two_pixels :
  exit_code (run driver_ok disk) = 0
  ∧ files (run driver_ok disk).2 !! output_path
    = Some (mkMat 1 2 3 (bytes [60; 60; 60; 85; 85; 85]))
  ∧ stdout_lines (io (run driver_ok disk).2) = [success_line].
Proof. vm_compute. repeat split. Qed.

(** The scenario S6: on a host without a GPU the run ends with exit code 1
    after the device diagnostic, and no output file exists. *)
Example S6_no_gpu :
  exit_code (run device_not_found disk) = 1
  ∧ devnull_lines (io (run device_not_found disk).2)
    = ["Failed to get the device ID."%string]
  ∧ files (run device_not_found disk).2 !! output_path = None.
Proof. vm_compute. repeat split. Qed.

Lemma first_failure_run (e : environment) (fs : gmap string Mat) (s : stage) :
  first_failure e fs = Some s → failed_run fs s (run e fs).
Proof.
  intros Hs. pose proof (run_outcome e fs) as Hrun. by rewrite Hs in Hrun.
Qed.

Lemma no_failure_run (e : environment) (fs : gmap string Mat) :
  first_failure e fs = None → completed_run e fs (run e fs).
Proof.
  intros Hs. pose proof (run_outcome e fs) as Hrun. by rewrite Hs in Hrun.
Qed.

(** No failure path releases anything: what was acquired before the
    check that failed is still held when [main] returns. *)
Lemma failure_path_releases_nothing (e : environment) (fs : gmap string Mat)
    (s : stage) :
  first_failure e fs = Some s →
  releases (run e fs).2 = []
  ∧ ∃ bufs, acquisitions (run e fs).2 = acquired_before s ++ bufs.
Proof.
  intros (bufs & dev & ->)%first_failure_run. split; [done|]. by exists bufs.
Qed.

(** C2, on the code. When [clCreateCommandQueueWithProperties] fails, the
    run ends through [return 1] with the context acquired and nothing
    released. *)
Theorem queue_failure_leaks_context :
  exit_code (run queue_refused disk) = 1
  ∧ acquisitions (run queue_refused disk).2 = [Context]
  ∧ releases (run queue_refused disk).2 = [].
Proof. vm_compute. repeat split. Qed.

(** C3, as amended. When a check of [main] fails, the run ends with exit
    code 1 after one line that names the failed step was written to
    [std::cerr]; [std::cerr] then writes to [/dev/null], so the line is
    discarded and nothing reaches the standard error or the standard output
    of the process. *)
Theorem checked_failure_diagnostic (e : environment) (fs : gmap string Mat)
    (s : stage) :
  first_failure e fs = Some s →
  exit_code (run e fs) = 1
  ∧ cerr_rdbuf (io (run e fs).2) = to_devnull
  ∧ devnull_lines (io (run e fs).2) = [diagnostic s]
  ∧ stderr_lines (io (run e fs).2) = []
  ∧ stdout_lines (io (run e fs).2) = [].
Proof. intros (bufs & dev & ->)%first_failure_run. done. Qed.

(** An instance: the queue cannot be created. *)
Lemma checked_failure_diagnostic_witness :
  first_failure queue_refused disk = Some QueueCreation
  ∧ exit_code (run queue_refused disk) = 1
  ∧ devnull_lines (io (run queue_refused disk).2)
    = ["Failed to create the command queue."%string]
  ∧ stderr_lines (io (run queue_refused disk).2) = [].
Proof.
  assert (first_failure queue_refused disk = Some QueueCreation) as Hs
    by (vm_compute; reflexivity).
  destruct (checked_failure_diagnostic queue_refused disk QueueCreation Hs)
    as (Hcode & _ & Hnull & Herr & _).
  split; [exact Hs|]. split; [exact Hcode|]. split; [exact Hnull | exact Herr].
Defined.

(** C3 as stated fails: with no input file the decode check fails and the
    run ends with exit code 1, but nothing is on the standard error of the
    process. *)
Lemma diagnostic_not_on_stderr :
  first_failure driver_ok ∅ = Some Decode
  ∧ exit_code (run driver_ok ∅) = 1
  ∧ stderr_lines (io (run driver_ok ∅).2) = []
  ∧ devnull_lines (io (run driver_ok ∅).2) = [diagnostic Decode].
Proof. vm_compute. repeat split. Qed.

(** C4, on the code. When the creation of the input buffer fails and every
    other call succeeds, no check of [main] fails: the run goes on with the
    null handle, writes the output file and the success line, and ends with
    exit code 0 without any diagnostic. *)
Theorem input_buffer_failure_ignored :
  first_failure input_buffer_refused disk = None
  ∧ exit_code (run input_buffer_refused disk) = 0
  ∧ acquisitions (run input_buffer_refused disk).2
    = [Context; CommandQueue; Program; Kernel; OutputBuffer]
  ∧ devnull_lines (io (run input_buffer_refused disk).2) = []
  ∧ stderr_lines (io (run input_buffer_refused disk).2) = []
  ∧ stdout_lines (io (run input_buffer_refused disk).2) = [success_line]
  ∧ files (run input_buffer_refused disk).2 !! output_path
    = Some (mkMat 1 2 3 (bytes [0; 0; 0; 0; 0; 0])).
Proof. vm_compute. repeat split. Qed.

(** C7, as amended. When [cv::imread] returns an empty image, as it does
    when there is no file at the input path, [main] writes the decode
    diagnostic to [std::cerr] and the run ends with exit code 1. [main] has
    pointed [std::cerr] at [/dev/null] before, so the line is discarded:
    nothing reaches the standard error or the standard output of the
    process. The files are the ones that were there before, whatever
    [cv::imwrite] would have done: no output file was created or
    modified. *)
Theorem missing_input_file (e : environment) (fs : gmap string Mat) :
  Mat_empty (default no_Mat (fs !! input_path)) = true →
  exit_code (run e fs) = 1
  ∧ cerr_rdbuf (io (run e fs).2) = to_devnull
  ∧ devnull_lines (io (run e fs).2)
    = ["Couldn't find the input image with specified link."%string]
  ∧ stderr_lines (io (run e fs).2) = []
  ∧ stdout_lines (io (run e fs).2) = []
  ∧ files (run e fs).2 = fs
  ∧ releases (run e fs).2 = [].
Proof.
  intros Hempty.
  assert (first_failure e fs = Some Decode) as Hs.
  { unfold first_failure. by rewrite Hempty. }
  apply first_failure_run in Hs as (bufs & dev & ->). done.
Qed.

(** An instance: an empty disk. *)
Lemma missing_input_file_witness :
  (∅ : gmap string Mat) !! input_path = None
  ∧ exit_code (run driver_ok ∅) = 1
  ∧ files (run driver_ok ∅).2 = ∅
  ∧ files (run driver_ok ∅).2 !! output_path = None.
Proof.
  destruct (missing_input_file driver_ok ∅)
    as (Hcode & _ & _ & _ & _ & Hfiles & _); [vm_compute; reflexivity|].
  split; [reflexivity|]. split; [exact Hcode|]. split; [exact Hfiles|].
  rewrite Hfiles. reflexivity.
Defined.

(** C7 as stated fails: on a disk without the input file the run ends with
    exit code 1 and leaves the files alone, but it carries no diagnostic to
    its caller. The line went to [/dev/null], and the standard error and the
    standard output of the process are empty. *)
Lemma missing_file_diagnostic_discarded :
  disk_without_input !! input_path = None
  ∧ exit_code (run driver_ok disk_without_input) = 1
  ∧ stderr_lines (io (run driver_ok disk_without_input).2) = []
  ∧ stdout_lines (io (run driver_ok disk_without_input).2) = []
  ∧ devnull_lines (io (run driver_ok disk_without_input).2)
    = ["Couldn't find the input image with specified link."%string]
  ∧ files (run driver_ok disk_without_input).2 = disk_without_input.
Proof.
  assert (disk_without_input !! input_path = None) as Hnone
    by (vm_compute; reflexivity).
  assert (first_failure driver_ok disk_without_input = Some Decode) as Hs.
  { unfold first_failure. rewrite Hnone. reflexivity. }
  apply first_failure_run in Hs as (bufs & dev & ->).
  split; [exact Hnone|]. cbn [exit_code fst snd io files stderr_lines
                               stdout_lines devnull_lines diagnostic].
  repeat split.
Qed.

(** C9. Every run of [main] ends through a [return] statement: through
    [return 1] when one of its checks fails, through [return 0] when none
    does; the exit code is exactly 1 in the first case and exactly 0 in the
    second. *)
Theorem main_exit_code (e : environment) (fs : gmap string Mat) :
  (run e fs).1
  = Return (match first_failure e fs with Some _ => 1 | None => 0 end)
  ∧ exit_code (run e fs)
    = match first_failure e fs with Some _ => 1 | None => 0 end.
Proof.
  pose proof (run_outcome e fs) as Hrun.
  destruct (first_failure e fs) as [s|].
  - destruct Hrun as (bufs & dev & ->). done.
  - destruct Hrun as (img & acq & rel & dev & ->). done.
Qed.

(** * A successful run, end to end *)

(** When the input image is one [cv::imread] decodes, of at most [2^31]
    pixels, and every call succeeds, the run ends with exit code 0: the
    output file holds the gray image of the input, with its width and height,
    the success line is the one line on the standard output, the six OpenCL
    objects are released and the device memory is freed. *)
Theorem run_writes_gray_image (e : environment) (fs : gmap string Mat) (img : Mat) :
  fs !! input_path = Some img → decoded_image img → all_calls_succeed e →
  run e fs
  = (Return 0,
     mkWorld (mkStreams to_stdout to_stderr [success_line] [] [])
       (<[output_path := mkMat (rows img) (cols img) 3 (gray_BGR (data img))]> fs)
       [Context; CommandQueue; Program; Kernel; InputBuffer; OutputBuffer]
       [InputBuffer; OutputBuffer; Kernel; Program; CommandQueue; Context]
       ∅).
Proof.
  intros Himg (HW & HH & Hsz & Hch & Hlen)
    (H1 & H2 & H3 & H4 & H5 & H6 & H7 & H8 & H9 & Harg & H10 & H11 & Hwr & Hsched).
  destruct img as [h w c d]. cbn [rows cols channels data] in *. subst c.
  assert (Mat_empty (mkMat h w 3 d) = false) as E0.
  { unfold Mat_empty. cbn [rows cols data].
    apply bool_decide_eq_false_2. intros [Hd|Hz]; [|nia].
    rewrite Hd in Hlen. simpl in Hlen. nia. }
  assert (bool_decide (CL_SUCCESS ≠ CL_SUCCESS) = false) as E1
    by (by apply bool_decide_eq_false_2; intros ?).
  assert (bool_decide (Z.lor (Z.lor (Z.lor CL_SUCCESS CL_SUCCESS) CL_SUCCESS)
                         CL_SUCCESS ≠ CL_SUCCESS) = false) as E2
    by (by apply bool_decide_eq_false_2; intros ?).
  run_to_check. cbn [files set_io initial_world]. fold input_path.
  rewrite Himg. change (default no_Mat (Some ?x)) with x.
  rewrite E0. cbv beta iota.
  do 14 (run_to_check;
    rewrite ?H1, ?H2, ?H3, ?H4, ?H5, ?H6, ?H7, ?H8, ?H9, ?Harg, ?H10, ?H11,
      ?E1, ?E2; cbv beta iota).
  f_equal.
  cbv beta iota zeta delta
    [initial_world set_io set_files set_device acquire release write_line
     io files acquisitions releases device
     cout_rdbuf cerr_rdbuf stdout_lines stderr_lines devnull_lines app
     cvtColor rows cols channels data fst snd NULL].
  rewrite Hwr.
  destruct (buffer_size w h) as (-> & -> & ->); [done..|].
  assert (Z.of_nat (length (BGR2RGBA d)) = 4 * w * h) as Hlen4.
  { rewrite (length_BGR2RGBA (Z.to_nat (w * h))); lia. }
  rewrite (take_ge (BGR2RGBA d)) by lia.
  rewrite (dispatch_gray_RGBA w h); try done.
  2:{ rewrite length_resize. lia. }
  2:{ unfold is_schedule. apply Hsched. }
  change (default (faulted_device e) (Some ?m)) with m.
  rewrite lookup_insert_eq.
  change (?f <$> Some ?x) with (Some (f x)).
  change (default ?a (Some ?x)) with x.
  assert (length (gray_RGBA (BGR2RGBA d)) = length (BGR2RGBA d)) as Hlg
    by (apply (length_gray_RGBA (Z.to_nat (w * h))); lia).
  rewrite take_ge by lia.
  rewrite (RGBA2BGR_gray_RGBA_BGR2RGBA (Z.to_nat (w * h))) by lia.
  rewrite delete_insert_ne by done. rewrite !delete_insert_eq, !delete_empty.
  reflexivity.
Qed.

(** An instance: the two-pixel image of scenario S4, stored as BGR. *)
Lemma run_writes_gray_image_witness :
  exit_code (run driver_ok disk) = 0
  ∧ files (run driver_ok disk).2 !! output_path
    = Some (mkMat 1 2 3 (bytes [60; 60; 60; 85; 85; 85])).
Proof.
  rewrite (run_writes_gray_image driver_ok disk two_pixels).
  - split; [reflexivity | vm_compute; reflexivity].
  - vm_compute. reflexivity.
  - unfold decoded_image, two_pixels. cbn [rows cols channels data].
    repeat split; first [lia | reflexivity].
  - unfold all_calls_succeed, driver_ok.
    cbn [st_clGetPlatformIDs st_clGetDeviceIDs st_clCreateContext
         st_clCreateCommandQueueWithProperties st_clCreateProgramWithSource
         st_clBuildProgram st_clCreateKernel st_clCreateBuffer_input
         st_clCreateBuffer_output st_clSetKernelArg st_clEnqueueNDRangeKernel
         st_clEnqueueReadBuffer imwrite_ok schedule].
    repeat split; reflexivity.
Defined.

(** * Further properties of the kernel *)

(** ** The gray value *)

(** The gray value the kernel stores for a pixel lies between the least and
    the greatest of the pixel's three color channels: the kernel neither
    darkens a pixel below its darkest channel nor brightens it above its
    brightest. *)
Lemma grayscale_between (px : uchar4.t) :
  Z.min (uchar_to_int (uchar4.x px))
        (Z.min (uchar_to_int (uchar4.y px)) (uchar_to_int (uchar4.z px)))
  ≤ uchar_to_int (grayscale px)
  ≤ Z.max (uchar_to_int (uchar4.x px))
          (Z.max (uchar_to_int (uchar4.y px)) (uchar_to_int (uchar4.z px))).
Proof.
  rewrite grayscale_value.
  pose proof (uchar_to_int_range (uchar4.x px)).
  pose proof (uchar_to_int_range (uchar4.y px)).
  pose proof (uchar_to_int_range (uchar4.z px)).
  rewrite Z.quot_div_nonneg by lia.
  split.
  - apply Z.div_le_lower_bound; lia.
  - apply Z.div_le_upper_bound; lia.
Qed.

(** The gray value does not depend on the order of the three color channels,
    nor on alpha: the kernel computes the same gray for a pixel stored as
    BGRA, GRBA or RBGA as for the pixel stored as RGBA. *)
Lemma grayscale_channel_order (r g b a a' : uchar) :
  grayscale (uchar4.mk b g r a') = grayscale (uchar4.mk r g b a)
  ∧ grayscale (uchar4.mk g r b a') = grayscale (uchar4.mk r g b a)
  ∧ grayscale (uchar4.mk r b g a') = grayscale (uchar4.mk r g b a).
Proof.
  split_and!; apply uchar_to_int_inj; rewrite !grayscale_value;
    cbn [uchar4.x uchar4.y uchar4.z]; f_equal; lia.
Qed.

(** ** The indexes of a range *)

Lemma flat_index_grid (W H : Z) :
  0 ≤ W → 0 ≤ H →
  (λ gid : Z * Z, gid.2 * W + gid.1) <$> grid W H = seqZ 0 (W * H).
Proof.
  intros HW HH. rewrite <- (Z2Nat.id H) by lia.
  generalize (Z.to_nat H) as h. clear H HH. intros h.
  induction h as [|h IH].
  - unfold grid. change (Z.of_nat 0) with 0. rewrite Z.mul_0_r.
    rewrite (seqZ_nil 0 0) by lia. done.
  - unfold grid in *. rewrite seqZ_S, bind_app, fmap_app, IH.
    rewrite bind_singleton. rewrite Z.add_0_l.
    replace (W * Z.of_nat (S h)) with (W * Z.of_nat h + W) by lia.
    rewrite seqZ_app by lia. f_equal.
    replace (0 + W * Z.of_nat h) with (W * Z.of_nat h + 0) by lia.
    rewrite <- (fmap_add_seqZ (W * Z.of_nat h) 0 W).
    generalize (seqZ 0 W) as xs. intros xs.
    induction xs as [|x xs IHx]; [done|].
    rewrite bind_cons. cbn [app fmap list_fmap]. simpl. f_equal; [lia|]. apply IHx.
Qed.

(** Over a range of [W] by [H] work-items with [W * H <= 2^31], the indexes
    [y * W + x] the work-items compute are, in row order, exactly
    [0, 1, ..., W * H - 1]: every pixel of the buffers belongs to one
    work-item, and no two work-items share a pixel. *)
Lemma pixel_index_enumerates (W H : Z) :
  0 ≤ W → 0 ≤ H → W * H ≤ 2 ^ 31 →
  pixel_index W <$> grid W H = seqZ 0 (W * H).
Proof.
  intros HW HH Hsz. rewrite <- flat_index_grid by done.
  apply list_fmap_ext. intros i [x y] Hi.
  apply list_elem_of_lookup_2 in Hi.
  by destruct (pixel_index_grid W H x y Hsz Hi) as [-> _].
Qed.

(** An instance: a range of 3 by 2. *)
Lemma pixel_index_enumerates_witness :
  pixel_index 3 <$> grid 3 2 = [0; 1; 2; 3; 4; 5].
Proof. apply (pixel_index_enumerates 3 2); lia. Defined.

(** ** Faults and the order of the work-items *)

Lemma load_uchar4_lookup_eq (l1 l2 : list uchar) (i : Z) (j : nat) (px : uchar4.t) :
  load_uchar4 l1 i = Some px → load_uchar4 l2 i = Some px →
  Z.of_nat j / 4 = i → l1 !! j = l2 !! j.
Proof.
  intros H1 H2 <-.
  pose proof (Z.div_mod (Z.of_nat j) 4) as Hdm.
  pose proof (Z.mod_pos_bound (Z.of_nat j) 4) as Hm.
  apply load_uchar4_Some in H1 as (_ & Ha1 & Hb1 & Hc1 & Hd1).
  apply load_uchar4_Some in H2 as (_ & Ha2 & Hb2 & Hc2 & Hd2).
  assert (j = Z.to_nat (4 * (Z.of_nat j / 4))
          ∨ j = (Z.to_nat (4 * (Z.of_nat j / 4)) + 1)%nat
          ∨ j = (Z.to_nat (4 * (Z.of_nat j / 4)) + 2)%nat
          ∨ j = (Z.to_nat (4 * (Z.of_nat j / 4)) + 3)%nat) as Hcase by lia.
  destruct Hcase as [Hc|[Hc|[Hc|Hc]]]; rewrite Hc; congruence.
Qed.

Lemma dispatch_missing_buffer (inputImage outputImage : nat) (W H : Z)
    (gid : Z * Z) (rest : list (Z * Z)) (m : gmap nat (list uchar)) :
  m !! inputImage = None ∨ m !! outputImage = None →
  dispatch inputImage outputImage W H (gid :: rest) m = None.
Proof.
  intros Hmiss. unfold dispatch. cbn [run_items].
  destruct (convertToGrayscale inputImage outputImage W H gid m) as [m1|] eqn:Hk;
    [|done].
  apply convertToGrayscale_inv in Hk as (? & ? & ? & ? & Hi & Ho & _).
  destruct Hmiss; congruence.
Qed.

(** A dispatch over two distinct buffers completes exactly when every
    work-item's index is non-negative and its four bytes lie inside the
    input buffer and inside the output buffer; otherwise an access is out of
    bounds and the dispatch has no defined result. *)
Theorem dispatch_completes_iff (inputImage outputImage : nat) (W H : Z)
    (sched : list (Z * Z)) (m : gmap nat (list uchar)) (inbuf outbuf : list uchar) :
  inputImage ≠ outputImage →
  m !! inputImage = Some inbuf → m !! outputImage = Some outbuf →
  is_Some (dispatch inputImage outputImage W H sched m) ↔
  ∀ gid, gid ∈ sched →
    0 ≤ pixel_index W gid
    ∧ 4 * pixel_index W gid + 4 ≤ Z.of_nat (length inbuf)
    ∧ 4 * pixel_index W gid + 4 ≤ Z.of_nat (length outbuf).
Proof.
  intros Hne Hin Hout. split.
  - intros [m' Hrun]. by eapply dispatch_Some_in_range.
  - intros Hrange.
    destruct (dispatch_in_range inputImage outputImage W H sched m inbuf outbuf)
      as (out' & -> & _); [done..|]. eauto.
Qed.

(** An instance: two work-items over buffers of two pixels complete; with an
    output buffer of one pixel only, the dispatch faults. *)
Lemma dispatch_completes_iff_witness :
  is_Some (dispatch 1 2 2 1 [(1, 0); (0, 0)]
             (<[2%nat := bytes [1; 2; 3; 4; 5; 6; 7; 8]]>
                (<[1%nat := bytes [30; 60; 90; 255; 255; 0; 0; 10]]> ∅)))
  ∧ dispatch 1 2 2 1 [(1, 0); (0, 0)]
      (<[2%nat := bytes [1; 2; 3; 4]]>
         (<[1%nat := bytes [30; 60; 90; 255; 255; 0; 0; 10]]> ∅)) = None.
Proof.
  split.
  - apply (dispatch_completes_iff 1 2 2 1 [(1, 0); (0, 0)] _
             (bytes [30; 60; 90; 255; 255; 0; 0; 10])
             (bytes [1; 2; 3; 4; 5; 6; 7; 8]));
      [lia | reflexivity | reflexivity |].
    intros gid [->|[->|[]%elem_of_nil]%elem_of_cons]%elem_of_cons;
      vm_compute; repeat split; discriminate.
  - vm_compute. reflexivity.
Defined.

(** The result of a dispatch over two distinct buffers does not depend on
    the order in which the device runs the work-items: two orders of the
    same work-items give the same memory, or both fault. *)
Theorem dispatch_schedule_invariant (inputImage outputImage : nat) (W H : Z)
    (sched1 sched2 : list (Z * Z)) (m : gmap nat (list uchar)) :
  inputImage ≠ outputImage → sched1 ≡ₚ sched2 →
  dispatch inputImage outputImage W H sched1 m
  = dispatch inputImage outputImage W H sched2 m.
Proof.
  intros Hne Hperm.
  destruct (m !! inputImage) as [inbuf|] eqn:Hin;
    [destruct (m !! outputImage) as [outbuf|] eqn:Hout|].
  - set (P := λ gid : Z * Z,
          0 ≤ pixel_index W gid
          ∧ 4 * pixel_index W gid + 4 ≤ Z.of_nat (length inbuf)
          ∧ 4 * pixel_index W gid + 4 ≤ Z.of_nat (length outbuf)).
    destruct (decide (Forall P sched1)) as [Hall|Hnot].
    + assert (Forall P sched2) as Hall2 by (by rewrite <- Hperm).
      rewrite Forall_forall in Hall. rewrite Forall_forall in Hall2.
      destruct (dispatch_in_range inputImage outputImage W H sched1 m inbuf outbuf)
        as (o1 & -> & Hl1 & Hp1 & Hr1); [done..|].
      destruct (dispatch_in_range inputImage outputImage W H sched2 m inbuf outbuf)
        as (o2 & -> & Hl2 & Hp2 & Hr2); [done..|].
      do 2 f_equal. apply list_eq. intros j.
      destruct (decide (Z.of_nat j / 4 ∈ pixel_index W <$> sched1)) as [Hj|Hj].
      * assert (Z.of_nat j / 4 ∈ pixel_index W <$> sched2) as Hj2
          by (by rewrite <- Hperm).
        pose proof (Hp1 _ Hj) as E1. pose proof (Hp2 _ Hj2) as E2.
        apply list_elem_of_fmap in Hj as (gid & Hgid & Hin1).
        destruct (Hall gid Hin1) as (H0 & Hli & _).
        destruct (proj2 (load_uchar4_in_range inbuf (pixel_index W gid)))
          as [px Hpx]; [done|].
        rewrite Hgid, Hpx in E1, E2.
        eapply load_uchar4_lookup_eq; [exact E1 | exact E2 | done].
      * assert (Z.of_nat j / 4 ∉ pixel_index W <$> sched2) as Hj2
          by (by rewrite <- Hperm).
        by rewrite Hr1, Hr2.
    + assert (¬ Forall P sched2) as Hnot2 by (by rewrite <- Hperm).
      destruct (dispatch inputImage outputImage W H sched1 m) as [m1|] eqn:H1.
      { exfalso. apply Hnot, Forall_forall.
        by eapply dispatch_Some_in_range. }
      destruct (dispatch inputImage outputImage W H sched2 m) as [m2|] eqn:H2;
        [|done].
      exfalso. apply Hnot2, Forall_forall.
      by eapply dispatch_Some_in_range.
  - destruct sched1 as [|g1 r1].
    + apply Permutation_nil_l in Hperm as ->. done.
    + destruct sched2 as [|g2 r2]; [by apply Permutation_nil_r in Hperm|].
      rewrite !dispatch_missing_buffer by auto. done.
  - destruct sched1 as [|g1 r1].
    + apply Permutation_nil_l in Hperm as ->. done.
    + destruct sched2 as [|g2 r2]; [by apply Permutation_nil_r in Hperm|].
      rewrite !dispatch_missing_buffer by auto. done.
Qed.

(** An instance: the two orders of two work-items, over an output buffer
    that is too short. *)
Lemma dispatch_schedule_invariant_witness :
  dispatch 1 2 2 1 [(0, 0); (1, 0)]
    (<[2%nat := bytes [1; 2; 3; 4]]>
       (<[1%nat := bytes [30; 60; 90; 255; 255; 0; 0; 10]]> ∅))
  = dispatch 1 2 2 1 [(1, 0); (0, 0)]
      (<[2%nat := bytes [1; 2; 3; 4]]>
         (<[1%nat := bytes [30; 60; 90; 255; 255; 0; 0; 10]]> ∅)).
Proof.
  apply (dispatch_schedule_invariant 1 2 2 1); [lia | apply perm_swap].
Defined.

(** A dispatch that completes leaves the output buffer with the length it
    had, and with the bytes it had in every pixel that is not the pixel of a
    work-item that ran. *)
Theorem dispatch_output_frame (inputImage outputImage : nat) (W H : Z)
    (sched : list (Z * Z)) (m m' : gmap nat (list uchar))
    (inbuf outbuf : list uchar) :
  inputImage ≠ outputImage →
  m !! inputImage = Some inbuf → m !! outputImage = Some outbuf →
  dispatch inputImage outputImage W H sched m = Some m' →
  ∃ outbuf',
    m' !! outputImage = Some outbuf'
    ∧ length outbuf' = length outbuf
    ∧ ∀ j : nat, Z.of_nat j / 4 ∉ pixel_index W <$> sched →
        outbuf' !! j = outbuf !! j.
Proof.
  intros Hne Hin Hout Hrun.
  pose proof (dispatch_Some_in_range inputImage outputImage W H sched m m'
                inbuf outbuf Hne Hin Hout Hrun) as Hrange.
  destruct (dispatch_in_range inputImage outputImage W H sched m inbuf outbuf
              Hne Hin Hout Hrange) as (outbuf' & Hrun' & Hlen & _ & Hrest).
  rewrite Hrun in Hrun'. injection Hrun' as ->.
  exists outbuf'. split; [by rewrite lookup_insert_eq|]. split; [exact Hlen|].
  exact Hrest.
Qed.

(** An instance: only the work-item [(1, 0)] runs, and byte 3, in pixel 0,
    keeps its value. *)
Lemma dispatch_output_frame_witness :
  ∃ m' outbuf',
    dispatch 1 2 2 1 [(1, 0)]
      (<[2%nat := bytes [1; 2; 3; 4; 5; 6; 7; 8]]>
         (<[1%nat := bytes [30; 60; 90; 255; 255; 0; 0; 10]]> ∅)) = Some m'
    ∧ m' !! 2%nat = Some outbuf'
    ∧ length outbuf' = 8%nat
    ∧ outbuf' !! 3%nat = Some Byte.x04.
Proof.
  set (m0 := <[2%nat := bytes [1; 2; 3; 4; 5; 6; 7; 8]]>
               (<[1%nat := bytes [30; 60; 90; 255; 255; 0; 0; 10]]> ∅)).
  destruct (dispatch 1 2 2 1 [(1, 0)] m0) as [m'|] eqn:Hrun;
    [|vm_compute in Hrun; discriminate].
  destruct (dispatch_output_frame 1 2 2 1 [(1, 0)] m0 m'
              (bytes [30; 60; 90; 255; 255; 0; 0; 10])
              (bytes [1; 2; 3; 4; 5; 6; 7; 8]))
    as (outbuf' & Hout & Hlen & Hrest);
    [lia | reflexivity | reflexivity | exact Hrun |].
  exists m', outbuf'. split; [reflexivity|]. split; [exact Hout|].
  split; [exact Hlen|].
  rewrite (Hrest 3%nat); [reflexivity|].
  intros [Hj|[]%elem_of_nil]%elem_of_cons. vm_compute in Hj. discriminate.
Defined.

(** ** The transform, applied twice *)

Lemma gray_RGBA_idemp_le (n : nat) (l : list uchar) :
  (length l ≤ n)%nat → gray_RGBA (gray_RGBA l) = gray_RGBA l.
Proof.
  revert l. induction n as [|n IH]; intros l Hl.
  - destruct l; [done | simpl in Hl; lia].
  - destruct l as [|r [|g [|b [|a rest]]]]; try done.
    cbn [gray_RGBA]. cbv zeta.
    pose proof (gray_pixel_fixed (grayscale (uchar4.mk r g b a)) a) as Hfix.
    unfold gray_pixel in Hfix. cbn [uchar4.w] in Hfix.
    injection Hfix as Hfix. rewrite Hfix.
    rewrite IH by (simpl in Hl; lia). reflexivity.
Qed.

(** Whatever the transform reads back is a fixed point of the transform:
    applied to its own output, under any order of the work-items and any
    initial contents of the output buffer, it returns that output. *)
Theorem transform_fixed_point (W H : Z) (sched1 sched2 : list (Z * Z))
    (inp junk1 junk2 out : list uchar) :
  1 ≤ W → 1 ≤ H →
  Z.of_nat (length inp) = 4 * W * H →
  Z.of_nat (length junk1) = 4 * W * H →
  Z.of_nat (length junk2) = 4 * W * H →
  is_schedule W H sched1 → is_schedule W H sched2 →
  transform W H sched1 inp junk1 = Some out →
  transform W H sched2 out junk2 = Some out.
Proof.
  intros HW HH Hli Hl1 Hl2 Hs1 Hs2 Ht.
  pose proof (transform_Some_size _ _ _ _ _ _ HW Hs1 Ht) as Hsz.
  rewrite (transform_gray_RGBA W H sched1 inp junk1) in Ht by done.
  injection Ht as <-.
  assert (length (gray_RGBA inp) = length inp) as Hlg
    by (apply (length_gray_RGBA (Z.to_nat (W * H))); lia).
  rewrite (transform_gray_RGBA W H sched2) by (done || lia).
  f_equal. by apply (gray_RGBA_idemp_le (length inp)).
Qed.

(** An instance: the output of scenario S4, transformed again. *)
Lemma transform_fixed_point_witness :
  transform 2 1 [(1, 0); (0, 0)] (bytes [60; 60; 60; 255; 85; 85; 85; 10])
            (bytes [0; 0; 0; 0; 0; 0; 0; 0])
  = Some (bytes [60; 60; 60; 255; 85; 85; 85; 10]).
Proof.
  apply (transform_fixed_point 2 1 (grid 2 1) [(1, 0); (0, 0)]
           (bytes [30; 60; 90; 255; 255; 0; 0; 10])
           (bytes [1; 2; 3; 4; 5; 6; 7; 8]));
    [lia | lia | reflexivity | reflexivity | reflexivity
    | unfold is_schedule; reflexivity
    | unfold is_schedule; change (grid 2 1) with [(0, 0); (1, 0)]; apply perm_swap
    | vm_compute; reflexivity].
Defined.

(** * Further properties of [main] *)

(** ** The size of the buffers *)

(** For every width and height an [int] of the image can hold, the size
    [sizeof(uchar) * 4 * width * height] that [main] passes to
    [clCreateBuffer] and to [clEnqueueReadBuffer] is computed without
    wrap-around in the 64-bit [size_t]. *)
Lemma buffer_size_no_wrap (width height : Z) :
  0 ≤ width < 2 ^ 31 → 0 ≤ height < 2 ^ 31 →
  size_t_mul (size_t_mul (size_t_mul 1 4) width) height = 4 * width * height
  ∧ 0 ≤ 4 * width * height < 2 ^ 64.
Proof.
  intros HW HH. unfold size_t_mul, size_t.
  assert (0 ≤ 4 * width * height < 2 ^ 64) as Hr by nia.
  rewrite (Z.mod_small (1 * 4)) by lia.
  rewrite (Z.mod_small (1 * 4 * width)) by lia.
  rewrite Z.mod_small by lia. lia.
Qed.

(** An instance: an image of 1920 by 1080. *)
Lemma buffer_size_no_wrap_witness :
  size_t_mul (size_t_mul (size_t_mul 1 4) 1920) 1080 = 8294400.
Proof.
  destruct (buffer_size_no_wrap 1920 1080) as [Hsize _]; [lia | lia |].
  exact Hsize.
Defined.

(** ** The OpenCL objects of a run *)

(** Every run, followed to its [return]: the objects it holds and the file
    it wrote. *)
Lemma run_ledger (e : environment) (fs : gmap string Mat) :
  ledger_post fs (buffers_created e) (imwrite_ok e) (first_failure e fs) (run e fs).
Proof.
  unfold first_failure, buffers_created.
  rewrite <- (bool_decide_ext _ _ (setarg_check _ _ _ _)).
  ledger_to_check. fold input_path.
  destruct (Mat_empty _); cbv beta iota; ledger_to_check; [ledger_ended|].
  ledger_check (st_clGetPlatformIDs e ≠ CL_SUCCESS).
  ledger_check (st_clGetDeviceIDs e ≠ CL_SUCCESS).
  ledger_check (st_clCreateContext e ≠ CL_SUCCESS).
  ledger_check (st_clCreateCommandQueueWithProperties e ≠ CL_SUCCESS).
  ledger_check (st_clCreateProgramWithSource e ≠ CL_SUCCESS).
  ledger_check (st_clBuildProgram e ≠ CL_SUCCESS).
  ledger_check (st_clCreateKernel e ≠ CL_SUCCESS).
  ledger_unchecked (st_clCreateBuffer_input e ≠ CL_SUCCESS);
    ledger_unchecked (st_clCreateBuffer_output e ≠ CL_SUCCESS);
    (match goal with
     | |- context [bool_decide (Z.lor ?a ?b ≠ CL_SUCCESS)] =>
         ledger_check (Z.lor a b ≠ CL_SUCCESS)
     end);
    ledger_check (st_clEnqueueNDRangeKernel e ≠ CL_SUCCESS);
    ledger_check (st_clEnqueueReadBuffer e ≠ CL_SUCCESS);
    ledger_ended.

Qed.

Lemma NoDup_buffers_created (e : environment) :
  NoDup ([Context; CommandQueue; Program; Kernel] ++ buffers_created e).
Proof.
  unfold buffers_created.
  destruct (bool_decide (st_clCreateBuffer_input e ≠ CL_SUCCESS)),
    (bool_decide (st_clCreateBuffer_output e ≠ CL_SUCCESS));
    cbn [app]; distinct_resources.
Qed.

(** No run creates an OpenCL object twice, releases an object twice, or
    releases an object it did not create. *)
Theorem release_safety (e : environment) (fs : gmap string Mat) :
  NoDup (acquisitions (run e fs).2)
  ∧ NoDup (releases (run e fs).2)
  ∧ ∀ r, r ∈ releases (run e fs).2 → r ∈ acquisitions (run e fs).2.
Proof.
  pose proof (run_ledger e fs) as Hrun.
  pose proof (NoDup_buffers_created e) as Hfull.
  assert (buffers_created e ++ [Kernel; Program; CommandQueue; Context]
          ≡ₚ [Context; CommandQueue; Program; Kernel] ++ buffers_created e)
    as Hperm.
  { rewrite (Permutation_app_comm _ (buffers_created e)).
    apply Permutation_app_head.
    apply (Permutation_rev [Kernel; Program; CommandQueue; Context]). }
  destruct (first_failure e fs) as [s|].
  - destruct Hrun as [-> ->]. split; [|split; [apply NoDup_nil_2|]].
    + destruct s; cbn [acquired_before]; try exact Hfull;
        rewrite app_nil_r; distinct_resources.
    + intros r Hr. by apply elem_of_nil in Hr.
  - destruct Hrun as (-> & -> & _). split; [exact Hfull|].
    split; [by rewrite Hperm|].
    intros r Hr. by rewrite <- Hperm.
Qed.

(** A run in which no check fails releases every OpenCL object it created:
    the buffers that were created first, then the kernel, the program, the
    queue and the context, the reverse of the order of their creation. *)
Theorem completed_run_releases (e : environment) (fs : gmap string Mat) :
  first_failure e fs = None →
  acquisitions (run e fs).2
  = [Context; CommandQueue; Program; Kernel] ++ buffers_created e
  ∧ releases (run e fs).2
    = buffers_created e ++ [Kernel; Program; CommandQueue; Context]
  ∧ releases (run e fs).2 ≡ₚ acquisitions (run e fs).2.
Proof.
  intros Hs. pose proof (run_ledger e fs) as Hrun. rewrite Hs in Hrun.
  destruct Hrun as (Hacq & Hrel & _). rewrite Hacq, Hrel.
  split; [done|]. split; [done|].
  rewrite (Permutation_app_comm _ (buffers_created e)).
  apply Permutation_app_head.
  apply (Permutation_rev [Kernel; Program; CommandQueue; Context]).
Qed.

(** An instance: the run of the sample driver. *)
Lemma completed_run_releases_witness :
  first_failure driver_ok disk = None
  ∧ releases (run driver_ok disk).2
    = [InputBuffer; OutputBuffer; Kernel; Program; CommandQueue; Context].
Proof.
  assert (first_failure driver_ok disk = None) as Hs
    by (vm_compute; reflexivity).
  split; [exact Hs|].
  exact (proj1 (proj2 (completed_run_releases driver_ok disk Hs))).
Defined.

(** ** The files of a run *)

(** No run changes a file other than the output file: in particular the
    input file is left as it was. *)
Theorem run_touches_only_output (e : environment) (fs : gmap string Mat)
    (path : string) :
  path ≠ output_path → files (run e fs).2 !! path = fs !! path.
Proof.
  intros Hpath. pose proof (run_outcome e fs) as Hrun.
  destruct (first_failure e fs) as [s|].
  - destruct Hrun as (bufs & dev & ->). done.
  - destruct Hrun as (img & acq & rel & dev & ->). cbn [snd files].
    destruct (imwrite_ok e); [|done]. by rewrite lookup_insert_ne.
Qed.

(** An instance: the input file after a successful run. *)
Lemma run_touches_only_output_witness :
  input_path ≠ output_path
  ∧ files (run driver_ok disk).2 !! input_path = Some two_pixels.
Proof.
  assert (input_path ≠ output_path) as Hne by (intros [=]).
  split; [exact Hne|].
  rewrite (run_touches_only_output driver_ok disk input_path Hne).
  vm_compute. reflexivity.
Defined.

(** A run in which a check fails changes no file: the output file is not
    created, and an output file of an earlier run is left as it was. *)
Theorem checked_failure_leaves_files (e : environment) (fs : gmap string Mat)
    (s : stage) :
  first_failure e fs = Some s → files (run e fs).2 = fs.
Proof. intros (bufs & dev & ->)%first_failure_run. done. Qed.

(** An instance: the host without a GPU. *)
Lemma checked_failure_leaves_files_witness :
  first_failure device_not_found disk = Some Device
  ∧ files (run device_not_found disk).2 = disk.
Proof.
  assert (first_failure device_not_found disk = Some Device) as Hs
    by (vm_compute; reflexivity).
  split; [exact Hs|].
  exact (checked_failure_leaves_files device_not_found disk Device Hs).
Defined.

(** [main] does not look at the result of [cv::imwrite]: when every check
    passes and the output file cannot be written, the run still ends with
    exit code 0 and the success line on the standard output, and no file
    has changed. *)
Theorem imwrite_result_ignored (e : environment) (fs : gmap string Mat) :
  first_failure e fs = None → imwrite_ok e = false →
  exit_code (run e fs) = 0
  ∧ stdout_lines (io (run e fs).2) = [success_line]
  ∧ files (run e fs).2 = fs.
Proof.
  intros (img & acq & rel & dev & ->)%no_failure_run Hw. rewrite Hw. done.
Qed.

(** An instance: the sample driver with a codec that cannot write. *)
Lemma imwrite_result_ignored_witness :
  first_failure imwrite_refused disk = None
  ∧ exit_code (run imwrite_refused disk) = 0
  ∧ files (run imwrite_refused disk).2 !! output_path = None.
Proof.
  assert (first_failure imwrite_refused disk = None) as Hs
    by (vm_compute; reflexivity).
  destruct (imwrite_result_ignored imwrite_refused disk Hs eq_refl)
    as (Hcode & _ & Hfiles).
  split; [exact Hs|]. split; [exact Hcode|]. rewrite Hfiles. reflexivity.
Defined.

(** When every check passes and the output file is written, it holds an
    image of three channels with the rows and the columns of the input
    image. *)
Theorem output_image_dimensions (e : environment) (fs : gmap string Mat)
    (img : Mat) :
  fs !! input_path = Some img → first_failure e fs = None →
  imwrite_ok e = true →
  ∃ d : list uchar,
    files (run e fs).2 !! output_path
    = Some (mkMat (rows img) (cols img) 3 d).
Proof.
  intros Himg Hs Hw. pose proof (run_ledger e fs) as Hrun.
  rewrite Hs in Hrun. destruct Hrun as (_ & _ & d & ->).
  rewrite Hw, Himg. exists d. by rewrite lookup_insert_eq.
Qed.

(** An instance: the image of one row and two columns. *)
Lemma output_image_dimensions_witness :
  ∃ d : list uchar,
    files (run driver_ok disk).2 !! output_path = Some (mkMat 1 2 3 d).
Proof.
  apply (output_image_dimensions driver_ok disk two_pixels);
    vm_compute; reflexivity.
Defined.

(** ** The streams of a run *)

(** No run writes to the process's standard error, and every run writes
    exactly one line. A run in which no check fails ends with exit code 0,
    the success line is the one line on the standard output, nothing went to
    [/dev/null], and [std::cout] and [std::cerr] have their buffers back. A
    run in which the check [s] fails ends with exit code 1, the diagnostic
    of [s] is the one line that went to [/dev/null], the standard output is
    empty, and [std::cout] and [std::cerr] still write to [/dev/null]. *)
Theorem run_writes_one_line (e : environment) (fs : gmap string Mat) :
  stderr_lines (io (run e fs).2) = []
  ∧ ((exit_code (run e fs) = 0
      ∧ first_failure e fs = None
      ∧ stdout_lines (io (run e fs).2) = [success_line]
      ∧ devnull_lines (io (run e fs).2) = []
      ∧ cout_rdbuf (io (run e fs).2) = to_stdout
      ∧ cerr_rdbuf (io (run e fs).2) = to_stderr)
     ∨ (exit_code (run e fs) = 1
        ∧ (∃ s, first_failure e fs = Some s
                ∧ devnull_lines (io (run e fs).2) = [diagnostic s])
        ∧ stdout_lines (io (run e fs).2) = []
        ∧ cout_rdbuf (io (run e fs).2) = to_devnull
        ∧ cerr_rdbuf (io (run e fs).2) = to_devnull)).
Proof.
  pose proof (run_outcome e fs) as Hrun.
  destruct (first_failure e fs) as [s|].
  - destruct Hrun as (bufs & dev & ->). split; [done|]. right.
    split; [done|]. split; [by exists s|]. done.
  - destruct Hrun as (img & acq & rel & dev & ->). split; [done|]. by left.
Qed.
